(** * tcpudprelay: a TCP fan-out relay and its UDP companion

    Shallow embedding of [src/tcprelay.py] and [src/udprelay.py].

    The two scripts are asyncio programs built from module globals, coroutines
    and calls into the socket layer.  They are embedded as follows.

    - The module globals ([target_connections], [running], [PORT], ...) are
      the fields of a record, the _world_, which every function threads.
    - Every call that leaves the program (open a connection, write, drain,
      read, close, print, ...) appends an event to the world's trace, newest
      first, and takes its outcome from an oracle, a function of the trace so
      far; the theorems hold for every oracle.  An assignment to a module
      global is visible to the other tasks, so it is an event as well.
    - A computation returns, raises a Python exception, or never finishes
      (an I/O call that hangs, or a loop that has used up its fuel).
    - [try]/[except]/[finally] are combinators on such computations.
    - [asyncio.gather] runs its tasks in the order they were created.  Each
      task of the relay writes only its own key of the registry. *)

From Stdlib Require Import List String Ascii Bool Arith NArith ZArith Lia.
From Stdlib Require Import Init.Byte.
Import ListNotations.

Set Implicit Arguments.

(** ** The fragment of Python the two scripts use *)

Module Py.

(** *** Exceptions *)

(** The exception classes that can reach the handlers of the scripts.  The
    last three derive from [BaseException] only, so [except Exception] lets
    them through. *)
Inductive exn : Type :=
| ConnectionResetError
| BrokenPipeError
| ConnectionRefusedError
| TimeoutError
| OSError
| FileNotFoundError
| UnicodeDecodeError
| KeyError
| RuntimeError
| CancelledError
| KeyboardInterrupt
| SystemExit.

(** [isinstance(e, Exception)] *)
Definition is_Exception (e : exn) : bool :=
  match e with
  | CancelledError | KeyboardInterrupt | SystemExit => false
  | _ => true
  end.

(** [isinstance(e, (ConnectionResetError, BrokenPipeError))] *)
Definition is_reset_or_broken_pipe (e : exn) : bool :=
  match e with
  | ConnectionResetError | BrokenPipeError => true
  | _ => false
  end.

(** *** Outcomes and the state-and-exception monad *)

Inductive result (A : Type) : Type :=
| Ret (a : A)
| Raise (e : exn)
| Diverge.

Arguments Ret {A} a.
Arguments Raise {A} e.
Arguments Diverge {A}.

Definition M (W A : Type) : Type := W -> result A * W.

Section Monad.
Context {W : Type}.

Definition ret {A} (a : A) : M W A := fun w => (Ret a, w).

Definition raise {A} (e : exn) : M W A := fun w => (Raise e, w).

Definition bind {A B} (m : M W A) (k : A -> M W B) : M W B :=
  fun w =>
    match m w with
    | (Ret a, w') => k a w'
    | (Raise e, w') => (Raise e, w')
    | (Diverge, w') => (Diverge, w')
    end.

(** Lift the outcome of an oracle. *)
Definition lift {A} (r : result A) : M W A := fun w => (r, w).

Definition get : M W W := fun w => (Ret w, w).

Definition modify (f : W -> W) : M W unit := fun w => (Ret tt, f w).

(** One [except] clause: the test on the exception and the handler. *)
Definition clause (A : Type) : Type := ((exn -> bool) * (exn -> M W A))%type.

(** The first clause that matches handles the exception; with no match it
    propagates.  An exception raised by a handler is not offered to the
    later clauses. *)
Fixpoint dispatch {A} (clauses : list (clause A)) (e : exn) : M W A :=
  match clauses with
  | [] => raise e
  | (matches, handler) :: rest =>
      if matches e then handler e else dispatch rest e
  end.

Definition try_except {A} (body : M W A) (clauses : list (clause A)) : M W A :=
  fun w =>
    match body w with
    | (Raise e, w') => dispatch clauses e w'
    | other => other
    end.

(** [try: body finally: final].  The [finally] block runs whether the body
    returned or raised; an exception of the block replaces the pending one.
    A body that never finishes never reaches the block. *)
Definition try_finally {A} (body : M W A) (final : M W unit) : M W A :=
  fun w =>
    match body w with
    | (Diverge, w') => (Diverge, w')
    | (r, w') =>
        match final w' with
        | (Ret _, w'') => (r, w'')
        | (Raise e, w'') => (Raise e, w'')
        | (Diverge, w'') => (Diverge, w'')
        end
    end.

(** [await asyncio.gather] over the task list, taken in creation order.
    Every task runs, from the state its predecessors left: one that raises
    or hangs does not cancel its siblings.  The awaiting coroutine receives
    the first exception; without one it waits for all the tasks, for ever
    if one of them hangs. *)
Fixpoint gather (tasks : list (M W unit)) : M W unit :=
  match tasks with
  | [] => ret tt
  | t :: rest =>
      fun w =>
        let (r, w') := t w in
        let (rs, w'') := gather rest w' in
        (match r, rs with
         | Raise e, _ => Raise e
         | _, Raise e => Raise e
         | Diverge, _ => Diverge
         | Ret _, _ => rs
         end, w'')
  end.

(** [await asyncio.wait_for(aw, timeout)], given what [aw] would do and how
    long it would take: an awaitable that has not finished when the
    deadline is reached is cancelled and [TimeoutError] is raised. *)
Definition within {A} (timeout : nat) (aw : result A * nat) : result A :=
  match aw with
  | (Diverge, _) => Raise TimeoutError
  | (r, elapsed) => if elapsed <? timeout then r else Raise TimeoutError
  end.

Definition wait_for {A} (aw : result A * nat) (timeout : nat) : M W A :=
  lift (within timeout aw).

End Monad.

Declare Scope py_scope.
Delimit Scope py_scope with py.
Notation "x <- m ;; k" := (bind m (fun x => k))
  (at level 100, m at next level, right associativity) : py_scope.
Notation "m ;; k" := (bind m (fun _ => k))
  (at level 100, right associativity) : py_scope.

(** *** [dict] with [str] keys

    A Python dict keeps its keys in insertion order and holds each key once;
    assigning to a key that is present keeps its position. *)

Definition dict (V : Type) : Type := list (string * V).

Section Dict.
Context {V : Type}.

Fixpoint dict_get (k : string) (d : dict V) : option V :=
  match d with
  | [] => None
  | (k', v) :: rest => if String.eqb k k' then Some v else dict_get k rest
  end.

(** [d[k] = v] *)
Fixpoint dict_set (k : string) (v : V) (d : dict V) : dict V :=
  match d with
  | [] => [(k, v)]
  | (k', v') :: rest =>
      if String.eqb k k' then (k', v) :: rest else (k', v') :: dict_set k v rest
  end.

Definition dict_keys (d : dict V) : list string := map fst d.

Definition dict_items (d : dict V) : list (string * V) := d.

(** [{k: v for k in ks}] *)
Definition dict_fromkeys (ks : list string) (v : V) : dict V :=
  fold_left (fun d k => dict_set k v d) ks [].

End Dict.

(** *** [str]

    Text is a Rocq [string]; its characters are the code points below 256. *)

(** [c.isspace()] for a code point below 256. *)
Definition isspace (c : ascii) : bool :=
  let n := nat_of_ascii c in
  ((9 <=? n) && (n <=? 13)) || ((28 <=? n) && (n <=? 32))
  || (n =? 133) || (n =? 160).

Fixpoint lstrip (s : string) : string :=
  match s with
  | EmptyString => EmptyString
  | String c rest => if isspace c then lstrip rest else s
  end.

Fixpoint string_rev_onto (s acc : string) : string :=
  match s with
  | EmptyString => acc
  | String c rest => string_rev_onto rest (String c acc)
  end.

Definition string_rev (s : string) : string := string_rev_onto s EmptyString.

Definition rstrip (s : string) : string := string_rev (lstrip (string_rev s)).

(** [s.strip()] *)
Definition strip (s : string) : string := lstrip (rstrip s).

(** Truth value of a [str]: false exactly for the empty string. *)
Definition str_truthy (s : string) : bool :=
  match s with
  | EmptyString => false
  | String _ _ => true
  end.

Definition LF : ascii := ascii_of_nat 10.
Definition CR : ascii := ascii_of_nat 13.

(** Text mode with the default [newline=None]: [\r\n] and a lone [\r] are
    read as [\n]. *)
Fixpoint universal_newlines (s : string) : string :=
  match s with
  | EmptyString => EmptyString
  | String c rest =>
      if Ascii.eqb c CR then
        String LF
          match rest with
          | String c' rest' =>
              if Ascii.eqb c' LF then universal_newlines rest'
              else universal_newlines rest
          | EmptyString => EmptyString
          end
      else String c (universal_newlines rest)
  end.

(** The lines a text file yields when iterated: each keeps its final [\n];
    a last line without one is yielded as it is.  [cur] is the line read so
    far, in reverse. *)
Fixpoint lines_from (s : string) (cur : string) : list string :=
  match s with
  | EmptyString =>
      match cur with
      | EmptyString => []
      | _ => [string_rev cur]
      end
  | String c rest =>
      if Ascii.eqb c LF then string_rev (String c cur) :: lines_from rest EmptyString
      else lines_from rest (String c cur)
  end.

Definition file_lines (content : string) : list string :=
  lines_from (universal_newlines content) EmptyString.

(** The keys of a list in the order of their first occurrence. *)
Fixpoint first_occurrences_from (seen ks : list string) : list string :=
  match ks with
  | [] => []
  | k :: rest =>
      if existsb (String.eqb k) seen then first_occurrences_from seen rest
      else k :: first_occurrences_from (k :: seen) rest
  end.

Definition first_occurrences (ks : list string) : list string :=
  first_occurrences_from [] ks.

(** A config file written one address per line. *)
Fixpoint config_text (addresses : list string) : string :=
  match addresses with
  | [] => EmptyString
  | a :: rest => (a ++ String LF (config_text rest))%string
  end.

(** The same file with another end of line. *)
Fixpoint config_text_eol (eol : string) (addresses : list string) : string :=
  match addresses with
  | [] => EmptyString
  | a :: rest => (a ++ eol ++ config_text_eol eol rest)%string
  end.

Fixpoint has_char (c : ascii) (s : string) : bool :=
  match s with
  | EmptyString => false
  | String c' rest => Ascii.eqb c' c || has_char c rest
  end.

Definition starts_clean (s : string) : bool :=
  match s with
  | EmptyString => false
  | String c _ => negb (isspace c)
  end.

(** An address as one would write it: not empty, on one line, no white
    space at either end. *)
Definition clean_address (s : string) : bool :=
  starts_clean s && starts_clean (string_rev s)
  && negb (has_char LF s) && negb (has_char CR s).

(** *** [bytes] *)

Definition bytes : Type := list byte.

(** Truth value of a [bytes] object. *)
Definition bytes_truthy (b : bytes) : bool :=
  match b with
  | [] => false
  | _ :: _ => true
  end.

Definition between (lo hi : N) (b : byte) : bool :=
  (N.leb lo (Byte.to_N b) && N.leb (Byte.to_N b) hi)%bool.

(** Continuation byte [80..BF]. *)
Definition cont (b : byte) : bool := between 128 191 b.

(** Well-formed UTF-8 (the byte sequences [bytes.decode()] accepts with its
    default codec and [errors='strict']): no overlong forms, no surrogates,
    nothing above U+10FFFF. *)
Fixpoint utf8_valid (b : bytes) : bool :=
  match b with
  | [] => true
  | b0 :: r0 =>
      if between 0 127 b0 then utf8_valid r0
      else
        match r0 with
        | [] => false
        | b1 :: r1 =>
            if between 194 223 b0 then cont b1 && utf8_valid r1
            else
              match r1 with
              | [] => false
              | b2 :: r2 =>
                  if between 224 224 b0 then
                    between 160 191 b1 && cont b2 && utf8_valid r2
                  else if between 225 236 b0 || between 238 239 b0 then
                    cont b1 && cont b2 && utf8_valid r2
                  else if between 237 237 b0 then
                    between 128 159 b1 && cont b2 && utf8_valid r2
                  else
                    match r2 with
                    | [] => false
                    | b3 :: r3 =>
                        if between 240 240 b0 then
                          between 144 191 b1 && cont b2 && cont b3 && utf8_valid r3
                        else if between 241 243 b0 then
                          cont b1 && cont b2 && cont b3 && utf8_valid r3
                        else if between 244 244 b0 then
                          between 128 143 b1 && cont b2 && cont b3 && utf8_valid r3
                        else false
                    end
              end
        end
  end.

(** A byte below 128. *)
Definition is_ascii_byte (b : byte) : bool := between 0 127 b.

(** [data.decode()]: the text, kept here as the bytes that encode it, or
    [UnicodeDecodeError]. *)
Definition decode {W} (data : bytes) : M W bytes :=
  if utf8_valid data then ret data else raise UnicodeDecodeError.

End Py.

(** ** [tcprelay.py] *)

Module Tcprelay.
Import Py.
Local Open Scope py_scope.
Local Open Scope string_scope.

(** A stream endpoint of the socket layer. *)
Definition handle : Type := nat.

(** The pair [(reader, writer)] of an established connection. *)
Definition conn : Type := (handle * handle)%type.

(** The messages handed to [log_debug]. *)
Inductive log_msg : Type :=
| Connected_to_target_server (ip : string) (port : option Z)
| Failed_to_connect_to_target_server (ip : string) (port : option Z) (e : exn)
| Connection_maintenance_task
| Data_forwarded_to (ip : string) (port : option Z)
| Connection_is_closed_Resetting (ip : string)
| Failed_to_forward_data_to (ip : string) (port : option Z) (e : exn)
| Received_data_from_client (text : bytes)
| Error_handling_client (e : exn)
| Client_connection_closed
| New_client_connected (writer : handle)
| Listening_on_port (port : option Z)
| Shutting_down_server
| Error_closing_connection.

Inductive event : Type :=
| EvPrint (msg : log_msg)
| EvOpenFile (path : string)
| EvOpenConnection (ip : string) (port : option Z)
| EvWrite (writer : handle) (data : bytes)
| EvDrain (writer : handle)
| EvRead (reader : handle) (n : nat)
| EvClose (writer : handle)
| EvWaitClosed (writer : handle)
| EvAsyncioSleep (seconds : nat)
| EvCreateReconnectTask
| EvStartServer (host : string) (port : option Z)
| EvServeForever
| EvServerClose
| EvSignalSIGINT
| EvLoopStop
| EvTimeSleep (seconds : nat)
| EvSetTargetConnections (d : dict (option conn))
| EvSetItem (ip : string) (c : option conn)
| EvSetRunning (b : bool)
| EvSetPORT (port : Z).

(** The module globals and the trace (newest event first). *)
Record world : Type := mkWorld {
  target_connections : dict (option conn);
  running : bool;
  PORT : option Z;
  trace : list event
}.

(** The state of the module when it has just been loaded. *)
Definition initial_world : world :=
  {| target_connections := []; running := true; PORT := None; trace := [] |}.

(** What the outside answers, given everything that happened so far. *)
Record env : Type := mkEnv {
  file_read : list event -> string -> result string;
  open_connection : list event -> string -> option Z -> result conn * nat;
  writer_write : list event -> handle -> bytes -> result unit;
  writer_drain : list event -> handle -> result unit;
  reader_read : list event -> handle -> nat -> result bytes;
  writer_close : list event -> handle -> result unit;
  writer_wait_closed : list event -> handle -> result unit;
  asyncio_start_server : list event -> string -> option Z -> result unit;
  serve_forever : list event -> result unit
}.

Definition record (ev : event) (w : world) : world :=
  {| target_connections := target_connections w;
     running := running w;
     PORT := PORT w;
     trace := ev :: trace w |}.

Definition emit (ev : event) : M world unit := modify (record ev).

(** A call into the outside: the event is recorded and the oracle, which
    sees the trace before the call, gives the outcome. *)
Definition call {A} (ev : event) (oracle : list event -> result A) : M world A :=
  fun w => (oracle (trace w), record ev w).

(** [target_connections[ip]] *)
Definition getitem (ip : string) : M world (option conn) :=
  fun w =>
    match dict_get ip (target_connections w) with
    | Some c => (Ret c, w)
    | None => (Raise KeyError, w)
    end.

(** [target_connections[ip] = c] *)
Definition setitem (ip : string) (c : option conn) : M world unit :=
  modify (fun w =>
    {| target_connections := dict_set ip c (target_connections w);
       running := running w;
       PORT := PORT w;
       trace := EvSetItem ip c :: trace w |}).

(** [target_connections = d] *)
Definition set_target_connections (d : dict (option conn)) : M world unit :=
  modify (fun w =>
    {| target_connections := d;
       running := running w;
       PORT := PORT w;
       trace := EvSetTargetConnections d :: trace w |}).

(** [running = b] *)
Definition set_running (b : bool) : M world unit :=
  modify (fun w =>
    {| target_connections := target_connections w;
       running := b;
       PORT := PORT w;
       trace := EvSetRunning b :: trace w |}).

(** [PORT = p] *)
Definition set_PORT (p : Z) : M world unit :=
  modify (fun w =>
    {| target_connections := target_connections w;
       running := running w;
       PORT := Some p;
       trace := EvSetPORT p :: trace w |}).

Definition log_debug (msg : log_msg) (debug : bool) : M world unit :=
  if debug then emit (EvPrint msg) else ret tt.

(** The list comprehension of [read_ips_from_config]. *)
Fixpoint stripped_nonempty (lines : list string) : list string :=
  match lines with
  | [] => []
  | line :: rest =>
      if str_truthy (strip line) then strip line :: stripped_nonempty rest
      else stripped_nonempty rest
  end.

(** The parsed command line. *)
Record args : Type := mkArgs {
  port : Z;
  config : string;
  debug : bool
}.

Section Program.
Variable E : env.

Definition read_ips_from_config (config_file : string) : M world (list string) :=
  content <- call (EvOpenFile config_file) (fun h => file_read E h config_file) ;;
  let ips := stripped_nonempty (file_lines content) in
  ret ips.

Definition connect_to_target (ip : string) (debug : bool) : M world unit :=
  try_except
    (w <- get ;;
     emit (EvOpenConnection ip (PORT w)) ;;
     c <- wait_for (open_connection E (trace w) ip (PORT w)) 5 ;;
     setitem ip (Some c) ;;
     log_debug (Connected_to_target_server ip (PORT w)) debug)
    [ (is_Exception,
       fun e =>
         w <- get ;;
         log_debug (Failed_to_connect_to_target_server ip (PORT w) e) debug) ].

(** The [for] loop of [connect_to_targets] over the keys of the registry. *)
Fixpoint connect_tasks (keys : list string) (debug : bool)
    (tasks : list (M world unit)) : M world (list (M world unit)) :=
  match keys with
  | [] => ret tasks
  | ip :: rest =>
      c <- getitem ip ;;
      match c with
      | Some _ => connect_tasks rest debug tasks
      | None => connect_tasks rest debug (tasks ++ [connect_to_target ip debug])
      end
  end.

Definition connect_to_targets (debug : bool) : M world unit :=
  w <- get ;;
  tasks <- connect_tasks (dict_keys (target_connections w)) debug [] ;;
  match tasks with
  | [] => ret tt
  | _ :: _ => gather tasks
  end.

(** One round of the [while] loop of [reconnect_task]. *)
Definition reconnect_round (debug : bool) : M world unit :=
  log_debug Connection_maintenance_task debug ;;
  connect_to_targets debug ;;
  emit (EvAsyncioSleep 10).

Fixpoint reconnect_task (fuel : nat) (debug : bool) : M world unit :=
  match fuel with
  | O => lift Diverge
  | S fuel' =>
      w <- get ;;
      if running w then reconnect_round debug ;; reconnect_task fuel' debug
      else ret tt
  end.

(** What the two calls of the [try] block of [forward_to_target] do when
    they start at trace [tr]: [writer.write(data)], then [writer.drain()]. *)
Definition write_outcome (tr : list event) (writer : handle) (data : bytes)
    : result unit :=
  match writer_write E tr writer data with
  | Ret _ => writer_drain E (EvWrite writer data :: tr) writer
  | failure => failure
  end.

Definition forward_to_target (ip : string) (c : conn) (data : bytes)
    (debug : bool) : M world unit :=
  let '(reader, writer) := c in
  try_except
    (call (EvWrite writer data) (fun h => writer_write E h writer data) ;;
     call (EvDrain writer) (fun h => writer_drain E h writer) ;;
     w <- get ;;
     log_debug (Data_forwarded_to ip (PORT w)) debug)
    [ (is_reset_or_broken_pipe,
       fun _ =>
         log_debug (Connection_is_closed_Resetting ip) debug ;;
         setitem ip None);
      (is_Exception,
       fun e =>
         w <- get ;;
         log_debug (Failed_to_forward_data_to ip (PORT w) e) debug) ].

(** The [for] loop of [forward_data] over the items of the registry. *)
Fixpoint forward_tasks (items : list (string * option conn)) (data : bytes)
    (debug : bool) : list (M world unit) :=
  match items with
  | [] => []
  | (ip, Some c) :: rest =>
      forward_to_target ip c data debug :: forward_tasks rest data debug
  | (ip, None) :: rest => forward_tasks rest data debug
  end.

Definition forward_data (data : bytes) (debug : bool) : M world unit :=
  w <- get ;;
  let tasks := forward_tasks (dict_items (target_connections w)) data debug in
  match tasks with
  | [] => ret tt
  | _ :: _ => gather tasks
  end.

(** What a round of the loop of [handle_client] does with a chunk that is
    not empty: the log line, whose text is built whether or not it is
    printed, then the fan-out. *)
Definition relay_chunk (data : bytes) (debug : bool) : M world unit :=
  text <- decode data ;;
  log_debug (Received_data_from_client text) debug ;;
  forward_data data debug.

(** The [while running] loop of [handle_client]; it returns at [break] or
    when the flag is down. *)
Fixpoint handle_client_loop (fuel : nat) (reader : handle) (debug : bool)
    : M world unit :=
  match fuel with
  | O => lift Diverge
  | S fuel' =>
      w <- get ;;
      if running w then
        data <- call (EvRead reader 4096) (fun h => reader_read E h reader 4096) ;;
        if bytes_truthy data then
          relay_chunk data debug ;;
          handle_client_loop fuel' reader debug
        else ret tt
      else ret tt
  end.

(** The [finally] block of [handle_client]. *)
Definition close_client (writer : handle) (debug : bool) : M world unit :=
  call (EvClose writer) (fun h => writer_close E h writer) ;;
  call (EvWaitClosed writer) (fun h => writer_wait_closed E h writer) ;;
  log_debug Client_connection_closed debug.

Definition handle_client (fuel : nat) (reader writer : handle) (debug : bool)
    : M world unit :=
  try_finally
    (try_except
       (handle_client_loop fuel reader debug)
       [ (is_Exception, fun e => log_debug (Error_handling_client e) debug) ])
    (close_client writer debug).

(** The callback [client_connected] that [start_server] registers. *)
Definition client_connected (fuel : nat) (reader writer : handle)
    (debug : bool) : M world unit :=
  log_debug (New_client_connected writer) debug ;;
  handle_client fuel reader writer debug.

Definition start_server (debug : bool) : M world unit :=
  connect_to_targets debug ;;
  emit EvCreateReconnectTask ;;
  w <- get ;;
  call (EvStartServer "0.0.0.0" (PORT w))
       (fun h => asyncio_start_server E h "0.0.0.0" (PORT w)) ;;
  log_debug (Listening_on_port (PORT w)) debug ;;
  try_finally
    (call EvServeForever (serve_forever E))
    (emit EvServerClose).

(** The [for] loop of [shutdown_server].  [writer.wait_closed()] is called
    without [await]: it builds a coroutine that never runs. *)
Fixpoint close_targets (items : list (string * option conn)) : M world unit :=
  match items with
  | [] => ret tt
  | (ip, c) :: rest =>
      try_except
        match c with
        | Some (_, writer) =>
            call (EvClose writer) (fun h => writer_close E h writer)
        | None => ret tt
        end
        [ (is_Exception, fun _ => log_debug Error_closing_connection true) ] ;;
      close_targets rest
  end.

Definition shutdown_server : M world unit :=
  set_running false ;;
  log_debug Shutting_down_server true ;;
  w <- get ;;
  close_targets (dict_items (target_connections w)) ;;
  emit EvLoopStop ;;
  emit (EvTimeSleep 3) ;;
  raise SystemExit.

(** [main] up to the call of [start_server]. *)
Definition main_init (a : args) : M world unit :=
  ips <- read_ips_from_config (config a) ;;
  set_target_connections (dict_fromkeys ips None) ;;
  set_PORT (port a) ;;
  emit EvSignalSIGINT.

Definition main (a : args) : M world unit :=
  main_init a ;;
  start_server (debug a).

End Program.

(** The targets a connect pass dials: among [keys], those the registry
    holds as [None]. *)
Definition pending (d : dict (option conn)) (keys : list string) : list string :=
  filter (fun ip => match dict_get ip d with Some None => true | _ => false end)
         keys.

(** The events of a client session: reading from a client, writing to a
    target. *)
Definition is_client_traffic (ev : event) : bool :=
  match ev with
  | EvRead _ _ | EvWrite _ _ | EvDrain _ => true
  | _ => false
  end.

(** The events of the connector: dialling, storing the pair, logging. *)
Definition is_connector_event (ev : event) : bool :=
  match ev with
  | EvOpenConnection _ _ | EvSetItem _ (Some _) | EvPrint _ => true
  | _ => false
  end.

(** The target answers a dial started at trace [tr] before the deadline of
    [connect_to_target]. *)
Definition reachable (E : env) (tr : list event) (ip : string) (p : option Z)
    : bool :=
  match within 5 (open_connection E tr ip p) with
  | Ret _ => true
  | _ => false
  end.

(** The writers of the connected targets, in the order of the registry. *)
Fixpoint connected_writers (items : list (string * option conn)) : list handle :=
  match items with
  | [] => []
  | (_, Some (_, writer)) :: rest => writer :: connected_writers rest
  | (_, None) :: rest => connected_writers rest
  end.

(** The writers on which [close] is called in a run of events. *)
Fixpoint closed_writers (evs : list event) : list handle :=
  match evs with
  | [] => []
  | EvClose writer :: rest => writer :: closed_writers rest
  | _ :: rest => closed_writers rest
  end.

(** [writer.close()] returns or raises an [Exception]. *)
Definition close_contained (r : result unit) : bool :=
  match r with
  | Ret _ => true
  | Raise e => is_Exception e
  | Diverge => false
  end.

(** Replay of the events [evs] (oldest first) that follow the trace [tr]:
    every [close] that raised is followed at once by the line
    [Error closing connection]. *)
Fixpoint close_failures_logged (E : env) (tr : list event) (evs : list event)
    : Prop :=
  match evs with
  | [] => True
  | EvClose writer :: rest =>
      match writer_close E tr writer with
      | Raise _ =>
          match rest with
          | EvPrint Error_closing_connection :: _ => True
          | _ => False
          end
      | _ => True
      end /\ close_failures_logged E (EvClose writer :: tr) rest
  | ev :: rest => close_failures_logged E (ev :: tr) rest
  end.

(** The ways a client session ends, seen from the head of its loop in world
    [w]: the flag is down, the read is empty, the read raises, the relay of
    the chunk raises, or one more round is made and the session ends later. *)
Inductive session_ends (E : env) (reader : handle) (debug : bool)
    : world -> Prop :=
| ends_flag_down w :
    running w = false ->
    session_ends E reader debug w
| ends_empty_read w data :
    running w = true ->
    reader_read E (trace w) reader 4096 = Ret data ->
    bytes_truthy data = false ->
    session_ends E reader debug w
| ends_read_error w e :
    running w = true ->
    reader_read E (trace w) reader 4096 = Raise e ->
    session_ends E reader debug w
| ends_relay_error w data e w1 :
    running w = true ->
    reader_read E (trace w) reader 4096 = Ret data ->
    bytes_truthy data = true ->
    relay_chunk E data debug (record (EvRead reader 4096) w) = (Raise e, w1) ->
    session_ends E reader debug w
| ends_later w data w1 :
    running w = true ->
    reader_read E (trace w) reader 4096 = Ret data ->
    bytes_truthy data = true ->
    relay_chunk E data debug (record (EvRead reader 4096) w) = (Ret tt, w1) ->
    session_ends E reader debug w1 ->
    session_ends E reader debug w.

(** [w'] is [w] after some more events. *)
Definition extends (w w' : world) : Prop :=
  exists evs, trace w' = (evs ++ trace w)%list.

(** The events recorded between [w] and a later [w'], oldest first. *)
Definition events_since (w w' : world) : list event :=
  rev (firstn (List.length (trace w') - List.length (trace w)) (trace w')).

(** The chunks written in a run of events, each with the writer it went to. *)
Fixpoint writes_of (evs : list event) : list (handle * bytes) :=
  match evs with
  | [] => []
  | EvWrite writer data :: rest => (writer, data) :: writes_of rest
  | _ :: rest => writes_of rest
  end.

(** The events [shutdown_server] can produce. *)
Definition is_shutdown_event (ev : event) : bool :=
  match ev with
  | EvSetRunning false | EvPrint Shutting_down_server
  | EvPrint Error_closing_connection | EvClose _
  | EvLoopStop | EvTimeSleep 3 => true
  | _ => false
  end.

(** The addresses dialled in a run of events. *)
Fixpoint dialled (evs : list event) : list string :=
  match evs with
  | [] => []
  | EvOpenConnection ip _ :: rest => ip :: dialled rest
  | _ :: rest => dialled rest
  end.

End Tcprelay.

(** ** [udprelay.py] *)

Module Udprelay.
Import Py.
Local Open Scope py_scope.
Local Open Scope string_scope.

(** A socket of the socket layer. *)
Definition handle : Type := nat.

(** The sender of a datagram, [(host, port)]. *)
Definition addr : Type := (string * Z)%type.

Inductive log_msg : Type :=
| Data_forwarded_to (ip : string) (port : option Z)
| Failed_to_forward_data_to (ip : string) (port : option Z) (e : exn)
| Waiting_for_data
| Received_data_from (a : addr) (text : bytes)
| Error_handling_client (e : exn)
| Listening_on_port (port : option Z)
| Server_shut_down.

Inductive event : Type :=
| EvPrint (msg : log_msg)
| EvSocket
| EvBind (sock : handle) (host : string) (port : option Z)
| EvSetBlocking (sock : handle) (flag : bool)
| EvRecvfrom (sock : handle) (n : nat)
| EvSendto (sock : handle) (data : bytes) (ip : string) (port : option Z)
| EvSocketClose (sock : handle)
| EvSetUdpSocket (sock : handle).

Record world : Type := mkWorld {
  target_ips : list string;
  running : bool;
  PORT : option Z;
  udp_socket : option handle;
  trace : list event
}.

Record env : Type := mkEnv {
  socket_socket : list event -> result handle;
  socket_bind : list event -> handle -> string -> option Z -> result unit;
  sock_recvfrom : list event -> handle -> nat -> result (bytes * addr);
  socket_sendto : list event -> handle -> bytes -> string -> option Z -> result nat;
  socket_close : list event -> handle -> result unit
}.

Definition record (ev : event) (w : world) : world :=
  {| target_ips := target_ips w;
     running := running w;
     PORT := PORT w;
     udp_socket := udp_socket w;
     trace := ev :: trace w |}.

Definition emit (ev : event) : M world unit := modify (record ev).

Definition call {A} (ev : event) (oracle : list event -> result A) : M world A :=
  fun w => (oracle (trace w), record ev w).

(** [udp_socket = sock] *)
Definition set_udp_socket (sock : handle) : M world unit :=
  modify (fun w =>
    {| target_ips := target_ips w;
       running := running w;
       PORT := PORT w;
       udp_socket := Some sock;
       trace := EvSetUdpSocket sock :: trace w |}).

Definition log_debug (msg : log_msg) (debug : bool) : M world unit :=
  if debug then emit (EvPrint msg) else ret tt.

Section Program.
Variable E : env.

(** The [with] statement closes the socket when its block is left, also by
    an exception. *)
Definition forward_data (data : bytes) (ip : string) (debug : bool)
    : M world unit :=
  try_except
    (sock <- call EvSocket (socket_socket E) ;;
     try_finally
       (w <- get ;;
        call (EvSendto sock data ip (PORT w))
             (fun h => socket_sendto E h sock data ip (PORT w)) ;;
        log_debug (Data_forwarded_to ip (PORT w)) debug)
       (call (EvSocketClose sock) (fun h => socket_close E h sock)))
    [ (is_Exception,
       fun e =>
         w <- get ;;
         log_debug (Failed_to_forward_data_to ip (PORT w) e) debug) ].

(** The [while running] loop of [handle_client]. *)
Fixpoint handle_client_loop (fuel : nat) (sock : handle) (debug : bool)
    : M world unit :=
  match fuel with
  | O => lift Diverge
  | S fuel' =>
      w <- get ;;
      if running w then
        log_debug Waiting_for_data debug ;;
        received <- call (EvRecvfrom sock 4096)
                         (fun h => sock_recvfrom E h sock 4096) ;;
        let '(data, a) := received in
        if bytes_truthy data then
          text <- decode data ;;
          log_debug (Received_data_from a text) debug ;;
          w' <- get ;;
          let tasks := map (fun ip => forward_data data ip debug) (target_ips w') in
          gather tasks ;;
          handle_client_loop fuel' sock debug
        else ret tt
      else ret tt
  end.

Definition handle_client (fuel : nat) (sock : handle) (debug : bool)
    : M world unit :=
  try_except
    (handle_client_loop fuel sock debug)
    [ (is_Exception, fun e => log_debug (Error_handling_client e) debug) ].

Definition start_server (fuel : nat) (debug : bool) : M world unit :=
  sock <- call EvSocket (socket_socket E) ;;
  set_udp_socket sock ;;
  w <- get ;;
  call (EvBind sock "0.0.0.0" (PORT w))
       (fun h => socket_bind E h sock "0.0.0.0" (PORT w)) ;;
  emit (EvSetBlocking sock false) ;;
  log_debug (Listening_on_port (PORT w)) debug ;;
  handle_client fuel sock debug ;;
  call (EvSocketClose sock) (fun h => socket_close E h sock) ;;
  log_debug Server_shut_down debug.

End Program.

(** The addresses to which a run of events sends a datagram. *)
Fixpoint sendto_targets (evs : list event) : list string :=
  match evs with
  | [] => []
  | EvSendto _ _ ip _ :: rest => ip :: sendto_targets rest
  | _ :: rest => sendto_targets rest
  end.

End Udprelay.

(** ** Concrete runs *)

Module Scenario.
Import Py.
Local Open Scope string_scope.

Definition A : string := "10.0.0.1".
Definition B : string := "10.0.0.2".
Definition C : string := "10.0.0.3".

(** [b"hello"] *)
Definition hello : bytes := [x68; x65; x6c; x6c; x6f].

(** A datagram that is not UTF-8: the single byte [0xff]. *)
Definition not_text : bytes := [xff].

Definition is_read (ev : Tcprelay.event) : bool :=
  match ev with
  | Tcprelay.EvRead _ _ => true
  | _ => false
  end.

(** [A] answers at once, [B] refuses, any other address never answers.  The
    peer behind writer [2] has gone away, writer [4] fails in some other
    way.  A client sends [hello] and then closes. *)
Definition outside : Tcprelay.env :=
  {| Tcprelay.file_read := fun _ _ => Ret (config_text [A; B; A]);
     Tcprelay.open_connection := fun _ ip _ =>
       if String.eqb ip A then (Ret (1, 2), 1)
       else if String.eqb ip B then (Raise ConnectionRefusedError, 0)
       else (Diverge, 0);
     Tcprelay.writer_write := fun _ _ _ => Ret tt;
     Tcprelay.writer_drain := fun _ writer =>
       match writer with
       | 2 => Raise ConnectionResetError
       | 4 => Raise OSError
       | _ => Ret tt
       end;
     Tcprelay.reader_read := fun tr _ _ =>
       match filter is_read tr with
       | [] => Ret hello
       | _ :: _ => Ret []
       end;
     Tcprelay.writer_close := fun _ writer =>
       match writer with
       | 4 => Raise OSError
       | _ => Ret tt
       end;
     Tcprelay.writer_wait_closed := fun _ _ => Ret tt;
     Tcprelay.asyncio_start_server := fun _ _ _ => Ret tt;
     Tcprelay.serve_forever := fun _ => Diverge |}.

(** The relay of [--port 9000] started on [outside]. *)
Definition started : Tcprelay.args :=
  {| Tcprelay.port := 9000; Tcprelay.config := "config.txt"; Tcprelay.debug := false |}.

(** Two targets configured, none connected yet. *)
Definition fresh : Tcprelay.world :=
  {| Tcprelay.target_connections := [(A, None); (B, None)];
     Tcprelay.running := true;
     Tcprelay.PORT := Some 9000%Z;
     Tcprelay.trace := [] |}.

(** Two targets connected, one not. *)
Definition serving : Tcprelay.world :=
  {| Tcprelay.target_connections := [(A, Some (1, 2)); (B, Some (3, 4)); (C, None)];
     Tcprelay.running := true;
     Tcprelay.PORT := Some 9000%Z;
     Tcprelay.trace := [] |}.

(** Every datagram that arrives is [not_text]. *)
Definition udp_outside : Udprelay.env :=
  {| Udprelay.socket_socket := fun tr => Ret (S (List.length tr));
     Udprelay.socket_bind := fun _ _ _ _ => Ret tt;
     Udprelay.sock_recvfrom := fun _ _ _ => Ret (not_text, ("192.0.2.7", 5000%Z));
     Udprelay.socket_sendto := fun _ _ data _ _ => Ret (List.length data);
     Udprelay.socket_close := fun _ _ => Ret tt |}.

Definition is_dial (ev : Tcprelay.event) : bool :=
  match ev with
  | Tcprelay.EvOpenConnection _ _ => true
  | _ => false
  end.

(** Like [outside], but [B] answers from the third dial on. *)
Definition outside_recovering : Tcprelay.env :=
  {| Tcprelay.file_read := Tcprelay.file_read outside;
     Tcprelay.open_connection := fun tr ip p =>
       if String.eqb ip B && Nat.leb 2 (List.length (filter is_dial tr))
       then (Ret (3, 4), 1)
       else Tcprelay.open_connection outside tr ip p;
     Tcprelay.writer_write := Tcprelay.writer_write outside;
     Tcprelay.writer_drain := Tcprelay.writer_drain outside;
     Tcprelay.reader_read := Tcprelay.reader_read outside;
     Tcprelay.writer_close := Tcprelay.writer_close outside;
     Tcprelay.writer_wait_closed := Tcprelay.writer_wait_closed outside;
     Tcprelay.asyncio_start_server := Tcprelay.asyncio_start_server outside;
     Tcprelay.serve_forever := Tcprelay.serve_forever outside |}.

Definition is_recvfrom (ev : Udprelay.event) : bool :=
  match ev with
  | Udprelay.EvRecvfrom _ _ => true
  | _ => false
  end.

(** One datagram [hello], then one of length zero. *)
Definition udp_outside_text : Udprelay.env :=
  {| Udprelay.socket_socket := fun tr => Ret (S (List.length tr));
     Udprelay.socket_bind := fun _ _ _ _ => Ret tt;
     Udprelay.sock_recvfrom := fun tr _ _ =>
       match filter is_recvfrom tr with
       | [] => Ret (hello, ("192.0.2.7", 5000%Z))
       | _ :: _ => Ret ([], ("192.0.2.7", 5000%Z))
       end;
     Udprelay.socket_sendto := fun _ _ data _ _ => Ret (List.length data);
     Udprelay.socket_close := fun _ _ => Ret tt |}.

Definition udp_serving : Udprelay.world :=
  {| Udprelay.target_ips := [A; B];
     Udprelay.running := true;
     Udprelay.PORT := Some 9000%Z;
     Udprelay.udp_socket := Some 7;
     Udprelay.trace := [] |}.

(** [outside] with some of its answers replaced. *)
Definition outside_but (read : result bytes) (wait_closed listen serve : result unit)
    (file : result string) : Tcprelay.env :=
  {| Tcprelay.file_read := fun _ _ => file;
     Tcprelay.open_connection := Tcprelay.open_connection outside;
     Tcprelay.writer_write := Tcprelay.writer_write outside;
     Tcprelay.writer_drain := Tcprelay.writer_drain outside;
     Tcprelay.reader_read := fun _ _ _ => read;
     Tcprelay.writer_close := Tcprelay.writer_close outside;
     Tcprelay.writer_wait_closed := fun _ _ => wait_closed;
     Tcprelay.asyncio_start_server := fun _ _ _ => listen;
     Tcprelay.serve_forever := fun _ => serve |}.

(** The client sends bytes that are not text. *)
Definition outside_binary : Tcprelay.env :=
  outside_but (Ret not_text) (Ret tt) (Ret tt) Diverge (Ret (config_text [A; B; A])).

(** The session task is cancelled while it reads; so is the server. *)
Definition outside_cancelled : Tcprelay.env :=
  outside_but (Raise CancelledError) (Ret tt) (Ret tt) (Raise CancelledError)
    (Ret (config_text [A; B; A])).

(** The client has closed, and its connection was reset. *)
Definition outside_reset_at_close : Tcprelay.env :=
  outside_but (Ret []) (Raise ConnectionResetError) (Ret tt) Diverge
    (Ret (config_text [A; B; A])).

(** The port of the listener is taken. *)
Definition outside_port_taken : Tcprelay.env :=
  outside_but (Ret []) (Ret tt) (Raise OSError) Diverge
    (Ret (config_text [A; B; A])).

(** There is no config file. *)
Definition outside_no_config : Tcprelay.env :=
  outside_but (Ret []) (Ret tt) (Ret tt) Diverge (Raise FileNotFoundError).

(** The UDP side with one socket [7] for everything. *)
Definition udp_outside_but (received : result (bytes * Udprelay.addr))
    (bound : result unit) : Udprelay.env :=
  {| Udprelay.socket_socket := fun _ => Ret 7;
     Udprelay.socket_bind := fun _ _ _ _ => bound;
     Udprelay.sock_recvfrom := fun _ _ _ => received;
     Udprelay.socket_sendto := fun _ _ data _ _ => Ret (List.length data);
     Udprelay.socket_close := fun _ _ => Ret tt |}.

Definition sender : Udprelay.addr := ("192.0.2.7", 5000%Z).

End Scenario.

(** * Properties *)

Import Py.

(** ** Dictionaries *)

Section DictFacts.
Context {V : Type}.
Implicit Types (d : dict V) (k : string) (v : V).

Lemma dict_get_set_same k v d : dict_get k (dict_set k v d) = Some v.
Proof.
  induction d as [|[k' v'] d IH]; simpl.
  - now rewrite String.eqb_refl.
  - destruct (String.eqb k k') eqn:Hk; simpl; rewrite Hk; auto.
Qed.

Lemma dict_get_set_other k k' v d :
  k' <> k -> dict_get k' (dict_set k v d) = dict_get k' d.
Proof.
  intros Hne. induction d as [|[k0 v0] d IH]; simpl.
  - destruct (String.eqb k' k) eqn:Hk; auto.
    apply String.eqb_eq in Hk. contradiction.
  - destruct (String.eqb k k0) eqn:Hk; simpl.
    + apply String.eqb_eq in Hk. subst k0.
      destruct (String.eqb k' k) eqn:Hk'; auto.
      apply String.eqb_eq in Hk'. contradiction.
    + now rewrite IH.
Qed.

Lemma dict_get_in_keys k d : dict_get k d <> None <-> In k (dict_keys d).
Proof.
  unfold dict_keys.
  induction d as [|[k' v'] d IH]; simpl.
  - split; [congruence | tauto].
  - destruct (String.eqb k k') eqn:Hk.
    + apply String.eqb_eq in Hk. subst. split; [auto | discriminate].
    + apply String.eqb_neq in Hk. rewrite IH. split; [auto | intros [H|H]; congruence].
Qed.

Lemma dict_keys_set_present k v d :
  In k (dict_keys d) -> dict_keys (dict_set k v d) = dict_keys d.
Proof.
  unfold dict_keys.
  induction d as [|[k' v'] d IH]; simpl; [tauto|].
  intros Hin. destruct (String.eqb k k') eqn:Hk; simpl; auto.
  apply String.eqb_neq in Hk. f_equal. apply IH.
  destruct Hin; congruence.
Qed.

Lemma dict_keys_set_absent k v d :
  ~ In k (dict_keys d) -> dict_keys (dict_set k v d) = dict_keys d ++ [k].
Proof.
  unfold dict_keys.
  induction d as [|[k' v'] d IH]; simpl; auto.
  intros Hin. destruct (String.eqb k k') eqn:Hk; simpl.
  - apply String.eqb_eq in Hk. subst k'. exfalso. apply Hin. now left.
  - f_equal. apply IH. tauto.
Qed.

Lemma dict_get_items k v d :
  NoDup (dict_keys d) -> In (k, v) d -> dict_get k d = Some v.
Proof.
  unfold dict_keys.
  induction d as [|[k' v'] d IH]; simpl; [tauto|].
  intros Hnd [Heq|Hin].
  - inversion Heq; subst. now rewrite String.eqb_refl.
  - inversion Hnd as [|? ? Hnotin Hnd']; subst.
    destruct (String.eqb k k') eqn:Hk; auto.
    apply String.eqb_eq in Hk. subst k'.
    exfalso. apply Hnotin. change k with (fst (k, v)).
    now apply in_map.
Qed.

Lemma dict_set_NoDup k v d :
  NoDup (dict_keys d) -> NoDup (dict_keys (dict_set k v d)).
Proof.
  intros Hnd. destruct (in_dec string_dec k (dict_keys d)) as [Hin|Hnot].
  - now rewrite dict_keys_set_present.
  - rewrite dict_keys_set_absent by assumption.
    apply NoDup_rev in Hnd. rewrite <- (rev_involutive (dict_keys d ++ [k])).
    apply NoDup_rev. rewrite rev_app_distr. simpl. constructor; [|assumption].
    now rewrite <- in_rev.
Qed.

Lemma dict_set_values k v d :
  (forall k' v', In (k', v') d -> v' = v) ->
  forall k' v', In (k', v') (dict_set k v d) -> v' = v.
Proof.
  induction d as [|[k0 v0] d IH]; simpl; intros Hall k' v'.
  - intros [Heq|[]]. now inversion Heq.
  - destruct (String.eqb k k0); simpl.
    + intros [Heq|Hin]; [now inversion Heq|eauto].
    + intros [Heq|Hin]; [eauto|]. eapply IH; eauto.
Qed.

Lemma dict_keys_set_in k v d k' :
  In k' (dict_keys (dict_set k v d)) <-> In k' (dict_keys d) \/ k' = k.
Proof.
  destruct (in_dec string_dec k (dict_keys d)) as [Hin|Hnot].
  - rewrite dict_keys_set_present by assumption.
    split; [auto|intros [? | ->]; assumption].
  - rewrite dict_keys_set_absent, in_app_iff by assumption. simpl.
    intuition congruence.
Qed.

(** The dict comprehension over [ks], started from [d]. *)
Lemma fold_dict_set ks v d :
  let d' := fold_left (fun d k => dict_set k v d) ks d in
  (NoDup (dict_keys d) -> NoDup (dict_keys d')) /\
  (forall k, In k (dict_keys d') <-> In k (dict_keys d) \/ In k ks) /\
  ((forall k' v', In (k', v') d -> v' = v) ->
   forall k' v', In (k', v') d' -> v' = v).
Proof.
  revert d. induction ks as [|k ks IH]; intros d; simpl.
  - repeat split; auto; tauto.
  - destruct (IH (dict_set k v d)) as (Hnd & Hin & Hval).
    split; [auto using dict_set_NoDup|]. split.
    + intros k'. rewrite Hin, dict_keys_set_in. intuition congruence.
    + intros Hall. apply Hval. now apply dict_set_values.
Qed.

Lemma dict_fromkeys_spec ks v :
  NoDup (dict_keys (dict_fromkeys ks v)) /\
  (forall k, In k (dict_keys (dict_fromkeys ks v)) <-> In k ks) /\
  (forall k v', In (k, v') (dict_fromkeys ks v) -> v' = v) /\
  (forall k, In k ks -> dict_get k (dict_fromkeys ks v) = Some v).
Proof.
  unfold dict_fromkeys.
  destruct (fold_dict_set ks v []) as (Hnd & Hin & Hval). simpl in *.
  assert (Hvals : forall k v', In (k, v') (fold_left (fun d k => dict_set k v d) ks [])
                               -> v' = v)
    by (apply Hval; intros ? ? []).
  split; [apply Hnd; constructor|].
  split; [intros k; rewrite Hin; tauto|].
  split; [assumption|].
  intros k Hk.
  assert (Hkey : In k (dict_keys (fold_left (fun d k => dict_set k v d) ks [])))
    by (apply Hin; now right).
  apply dict_get_in_keys in Hkey.
  destruct (dict_get k _) as [v'|] eqn:Hget; [|congruence].
  f_equal. apply (Hvals k).
  clear - Hget. revert Hget.
  generalize (fold_left (fun d k => dict_set k v d) ks []).
  induction d as [|[k0 v0] d IH]; simpl; [discriminate|].
  destruct (String.eqb k k0) eqn:Hk.
  - apply String.eqb_eq in Hk. intros [= ->]. subst. now left.
  - auto.
Qed.

End DictFacts.

(** ** Text *)

Section TextFacts.
Local Open Scope string_scope.

Lemma append_assoc s t u : (s ++ t) ++ u = s ++ (t ++ u).
Proof. induction s; simpl; congruence. Qed.

Lemma string_rev_onto_app s acc :
  string_rev_onto s acc = string_rev s ++ acc.
Proof.
  unfold string_rev. revert acc.
  induction s as [|c s IH]; intros acc; simpl; auto.
  rewrite IH, (IH (String c "")), append_assoc. reflexivity.
Qed.

Lemma string_rev_cons c s : string_rev (String c s) = string_rev s ++ String c "".
Proof. unfold string_rev at 1. simpl. apply string_rev_onto_app. Qed.

Lemma append_empty_r s : s ++ "" = s.
Proof. induction s; simpl; congruence. Qed.

Lemma string_rev_app s t : string_rev (s ++ t) = string_rev t ++ string_rev s.
Proof.
  induction s as [|c s IH]; simpl.
  - now rewrite append_empty_r.
  - now rewrite !string_rev_cons, IH, append_assoc.
Qed.

Lemma string_rev_involutive s : string_rev (string_rev s) = s.
Proof.
  induction s as [|c s IH]; auto.
  rewrite string_rev_cons, string_rev_app, IH. reflexivity.
Qed.

Lemma lstrip_clean s : starts_clean s = true -> lstrip s = s.
Proof.
  destruct s as [|c s]; simpl; [discriminate|].
  destruct (isspace c); [discriminate|reflexivity].
Qed.

(** [strip] undoes the end of line of a clean address. *)
Lemma strip_line a :
  clean_address a = true -> strip (a ++ String LF "") = a.
Proof.
  unfold clean_address. rewrite !andb_true_iff.
  intros [[[Hs He] _] _]. unfold strip, rstrip.
  rewrite string_rev_app. simpl.
  rewrite (lstrip_clean _ He), string_rev_involutive.
  now apply lstrip_clean.
Qed.

Lemma clean_address_truthy a : clean_address a = true -> str_truthy a = true.
Proof.
  unfold clean_address. rewrite !andb_true_iff.
  intros [[[Hs _] _] _]. destruct a; [discriminate|reflexivity].
Qed.

Lemma has_char_app c s t : has_char c (s ++ t) = has_char c s || has_char c t.
Proof. induction s as [|c' s IH]; simpl; auto. now rewrite IH, orb_assoc. Qed.

Lemma universal_newlines_id s : has_char CR s = false -> universal_newlines s = s.
Proof.
  induction s as [|c s IH]; simpl; auto.
  rewrite orb_false_iff. intros [Hc Hs]. rewrite Hc. now rewrite IH.
Qed.

Lemma config_text_no_CR addresses :
  Forall (fun a => clean_address a = true) addresses ->
  has_char CR (config_text addresses) = false.
Proof.
  induction 1 as [|a rest Ha _ IH]; simpl; auto.
  unfold clean_address in Ha. rewrite !andb_true_iff, !negb_true_iff in Ha.
  destruct Ha as [_ Hcr]. rewrite has_char_app. simpl. now rewrite Hcr, IH.
Qed.

Lemma lines_from_line a rest cur :
  has_char LF a = false ->
  lines_from (a ++ String LF rest) cur =
    (string_rev cur ++ a ++ String LF "") :: lines_from rest "".
Proof.
  revert cur. induction a as [|c a IH]; intros cur; simpl.
  - intros _. rewrite ?Ascii.eqb_refl. now rewrite string_rev_cons.
  - rewrite orb_false_iff. intros [Hc Ha]. rewrite Hc, IH by assumption.
    now rewrite string_rev_cons, append_assoc.
Qed.

Lemma file_lines_config_text addresses :
  Forall (fun a => clean_address a = true) addresses ->
  file_lines (config_text addresses) =
    map (fun a => a ++ String LF "") addresses.
Proof.
  intros Hclean. unfold file_lines.
  rewrite universal_newlines_id by now apply config_text_no_CR.
  induction Hclean as [|a rest Ha _ IH]; simpl; auto.
  rewrite lines_from_line, IH; [reflexivity|].
  unfold clean_address in Ha. rewrite !andb_true_iff, !negb_true_iff in Ha.
  tauto.
Qed.

End TextFacts.

(** ** The TCP relay *)

Section TcprelayFacts.
Import Tcprelay.
Variable E : env.

Ltac run :=
  unfold try_except, try_finally, bind, ret, raise, lift, get, modify,
    wait_for, call, emit, record, log_debug, setitem, getitem,
    set_running in *;
  simpl in *.

Ltac trace_prefix :=
  first [ now (exists [])
        | now (eexists [_])
        | now (eexists [_; _])
        | now (eexists [_; _; _])
        | now (eexists [_; _; _; _]) ].

Lemma extends_refl w : extends w w.
Proof. now exists []. Qed.

Lemma extends_trans w1 w2 w3 : extends w1 w2 -> extends w2 w3 -> extends w1 w3.
Proof.
  intros [e1 H1] [e2 H2]. exists (e2 ++ e1).
  now rewrite H2, H1, app_assoc.
Qed.

Lemma events_since_prefix w w' evs :
  trace w' = evs ++ trace w -> events_since w w' = rev evs.
Proof.
  intros H. unfold events_since. rewrite H, length_app.
  replace (List.length evs + List.length (trace w) - List.length (trace w))
    with (List.length evs) by lia.
  rewrite firstn_app, firstn_all, Nat.sub_diag. simpl. now rewrite app_nil_r.
Qed.

(** *** One attempt of the forwarder *)

(** The registry after [forward_to_target], for each outcome of the write. *)
Lemma forward_to_target_effect ip rd wr data dbg w :
  exists r w',
    forward_to_target E ip (rd, wr) data dbg w = (r, w') /\
    running w' = running w /\ PORT w' = PORT w /\ extends w w' /\
    match write_outcome E (trace w) wr data with
    | Ret _ => r = Ret tt /\ target_connections w' = target_connections w
    | Raise e =>
        if is_reset_or_broken_pipe e then
          r = Ret tt /\
          target_connections w' = dict_set ip None (target_connections w)
        else if is_Exception e then
          r = Ret tt /\ target_connections w' = target_connections w
        else
          r = Raise e /\ target_connections w' = target_connections w
    | Diverge => r = Diverge /\ target_connections w' = target_connections w
    end.
Proof.
  unfold forward_to_target, write_outcome. run.
  destruct (writer_write E (trace w) wr data) as [[]|e|] eqn:Hw.
  - destruct (writer_drain E (EvWrite wr data :: trace w) wr) as [[]|e|] eqn:Hd.
    + destruct dbg; simpl; do 2 eexists; repeat split; trace_prefix.
    + destruct e, dbg; simpl; do 2 eexists; repeat split; trace_prefix.
    + do 2 eexists; repeat split; trace_prefix.
  - destruct e, dbg; simpl; do 2 eexists; repeat split; trace_prefix.
  - do 2 eexists; repeat split; trace_prefix.
Qed.

(** The fan-out: every forwarding task runs, and a target changes state
    only through a failure of its own write. *)
Lemma gather_forward_tasks items data dbg w :
  exists r w',
    gather (forward_tasks E items data dbg) w = (r, w') /\
    running w' = running w /\ PORT w' = PORT w /\ extends w w' /\
    (forall e, r = Raise e -> is_Exception e = false) /\
    (forall ip,
        dict_get ip (target_connections w') = dict_get ip (target_connections w) \/
        (dict_get ip (target_connections w') = Some None /\
         exists rd wr tr e,
           In (ip, Some (rd, wr)) items /\
           write_outcome E tr wr data = Raise e /\
           is_reset_or_broken_pipe e = true)) /\
    (forall ip rd wr,
        In (ip, Some (rd, wr)) items ->
        (forall tr, exists e,
            write_outcome E tr wr data = Raise e /\
            is_reset_or_broken_pipe e = true) ->
        dict_get ip (target_connections w') = Some None).
Proof.
  revert w. induction items as [|[ip0 [[rd0 wr0]|]] items IH]; intros w.
  - exists (Ret tt), w. simpl. repeat split; auto using extends_refl.
    + discriminate.
    + intros ip rd wr [].
  - destruct (forward_to_target_effect ip0 rd0 wr0 data dbg w)
      as (r1 & w1 & Hrun1 & Hr1 & Hp1 & Hx1 & Hout).
    destruct (IH w1) as (r2 & w2 & Hrun2 & Hr2 & Hp2 & Hx2 & Hexn & Hframe & Hreset).
    assert (Hhead : (forall e, r1 = Raise e -> is_Exception e = false) /\
                    (target_connections w1 = target_connections w \/
                     target_connections w1 = dict_set ip0 None (target_connections w) /\
                     exists e, write_outcome E (trace w) wr0 data = Raise e /\
                               is_reset_or_broken_pipe e = true)).
    { destruct (write_outcome E (trace w) wr0 data) as [[]|e|] eqn:Ho.
      - destruct Hout as [-> ?]. split; auto; discriminate.
      - destruct (is_reset_or_broken_pipe e) eqn:Hre.
        + destruct Hout as [-> ?]. split; eauto; discriminate.
        + destruct (is_Exception e) eqn:Hex; destruct Hout as [-> ?].
          * split; auto; discriminate.
          * split; auto. congruence.
      - destruct Hout as [-> ?]. split; auto; discriminate. }
    destruct Hhead as (Hexn1 & Hreg1).
    cbn [forward_tasks gather]. rewrite Hrun1, Hrun2.
    eexists _, w2. split; [reflexivity|].
    split; [congruence|]. split; [congruence|].
    split; [eauto using extends_trans|].
    split.
    { intros e He. destruct r1 as [[]|e1|]; destruct r2 as [[]|e2|];
        inversion He; subst; eauto. }
    split.
    { intros ip.
      destruct (Hframe ip) as [Hsame | (Hnone & rd & wr & tr & e & Hin & Ho & He)].
      - rewrite Hsame.
        destruct Hreg1 as [-> | (-> & e & Ho & He)]; [now left|].
        destruct (string_dec ip ip0) as [->|Hne].
        + right. rewrite dict_get_set_same. split; [reflexivity|].
          exists rd0, wr0, (trace w), e. simpl; auto.
        + left. now apply dict_get_set_other.
      - right. split; [assumption|].
        exists rd, wr, tr, e. simpl; auto. }
    intros ip rd wr [Heq | Hin] Hfail.
    + inversion Heq; subst ip0 rd0 wr0. clear Heq.
      destruct (Hfail (trace w)) as (e & Ho & He).
      rewrite Ho, He in Hout. destruct Hout as [_ Hreg].
      destruct (Hframe ip) as [Hsame | [Hnone _]]; [|assumption].
      rewrite Hsame, Hreg. apply dict_get_set_same.
    + eauto.
  - destruct (IH w) as (r2 & w2 & Hrun2 & Hrest). cbn [forward_tasks].
    exists r2, w2. split; [assumption|].
    destruct Hrest as (Hr2 & Hp2 & Hx2 & Hexn & Hframe & Hreset).
    repeat split; auto.
    + intros ip. destruct (Hframe ip) as [?|(? & rd & wr & tr & e & ? & ? & ?)];
        [now left|right]. split; [assumption|]. exists rd, wr, tr, e. simpl; auto.
    + intros ip rd wr [Heq|Hin] Hfail; [discriminate|eauto].
Qed.

(** *** One attempt of the connector *)

Lemma within_finishes A (timeout : nat) (aw : result A * nat) :
  within timeout aw <> Diverge.
Proof.
  destruct aw as [[a|e|] t]; simpl; try discriminate;
    destruct (t <? timeout); discriminate.
Qed.

Lemma connect_to_target_effect ip dbg w :
  exists r w' evs,
    connect_to_target E ip dbg w = (r, w') /\
    running w' = running w /\ PORT w' = PORT w /\
    trace w' = evs ++ EvOpenConnection ip (PORT w) :: trace w /\
    (forall ip' p, ~ In (EvOpenConnection ip' p) evs) /\
    (forall ev, In ev evs -> is_connector_event ev = true) /\
    match within 5 (open_connection E (trace w) ip (PORT w)) with
    | Ret c =>
        r = Ret tt /\
        target_connections w' = dict_set ip (Some c) (target_connections w)
    | Raise e =>
        r = (if is_Exception e then Ret tt else Raise e) /\
        target_connections w' = target_connections w
    | Diverge => False
    end.
Proof.
  unfold connect_to_target. run.
  destruct (within 5 (open_connection E (trace w) ip (PORT w))) as [c|e|] eqn:Hw.
  - destruct dbg; simpl.
    + exists (Ret tt). eexists. eexists [_; _]. repeat split.
      * intros ip' p [H|[H|[]]]; discriminate.
      * intros ev [<-|[<-|[]]]; reflexivity.
    + exists (Ret tt). eexists. eexists [_]. repeat split.
      * intros ip' p [H|[]]; discriminate.
      * intros ev [<-|[]]; reflexivity.
  - destruct (is_Exception e) eqn:He; simpl.
    + destruct dbg; simpl.
      * exists (Ret tt). eexists. eexists [_]. repeat split.
        -- intros ip' p [H|[]]; discriminate.
        -- intros ev [<-|[]]; reflexivity.
      * exists (Ret tt). eexists. exists []. repeat split; first [intros ? ? [] | intros ? []].
    + exists (Raise e). eexists. exists []. repeat split; first [intros ? ? [] | intros ? []].
  - now apply within_finishes in Hw.
Qed.

(** *** A connect pass *)

(** The loop of [connect_to_targets] builds one task per pending key and
    touches nothing. *)
Lemma connect_tasks_pending keys dbg tasks w :
  (forall ip, In ip keys -> In ip (dict_keys (target_connections w))) ->
  connect_tasks E keys dbg tasks w =
    (Ret (tasks ++ map (fun ip => connect_to_target E ip dbg)
                       (pending (target_connections w) keys)), w).
Proof.
  revert tasks. induction keys as [|ip keys IH]; intros tasks Hkeys.
  - simpl. now rewrite app_nil_r.
  - cbn [connect_tasks pending filter]. unfold bind, getitem.
    assert (Hin : In ip (dict_keys (target_connections w))) by (apply Hkeys; now left).
    apply dict_get_in_keys in Hin.
    destruct (dict_get ip (target_connections w)) as [[c|]|]; [| |congruence].
    + apply IH. intros; apply Hkeys; now right.
    + rewrite IH by (intros; apply Hkeys; now right).
      unfold pending. now rewrite <- app_assoc.
Qed.

Lemma gather_connect_tasks ips dbg w :
  exists r w' evs,
    gather (map (fun ip => connect_to_target E ip dbg) ips) w = (r, w') /\
    running w' = running w /\ PORT w' = PORT w /\
    trace w' = evs ++ trace w /\
    (forall e, r = Raise e -> is_Exception e = false) /\
    r <> Diverge /\
    (forall ip p, In (EvOpenConnection ip p) evs -> In ip ips) /\
    (forall ip, In ip ips -> In (EvOpenConnection ip (PORT w)) evs) /\
    (forall ev, In ev evs -> is_connector_event ev = true) /\
    (forall ip,
        dict_get ip (target_connections w') = dict_get ip (target_connections w) \/
        (In ip ips /\
         exists c tr,
           within 5 (open_connection E tr ip (PORT w)) = Ret c /\
           dict_get ip (target_connections w') = Some (Some c))) /\
    (forall ip,
        In ip ips ->
        (forall tr, exists c, within 5 (open_connection E tr ip (PORT w)) = Ret c) ->
        exists c, dict_get ip (target_connections w') = Some (Some c)) /\
    ((forall ip tr c,
         In ip ips -> within 5 (open_connection E tr ip (PORT w)) <> Ret c) ->
     target_connections w' = target_connections w) /\
    ((forall ip, In ip ips -> In ip (dict_keys (target_connections w))) ->
     dict_keys (target_connections w') = dict_keys (target_connections w)).
Proof.
  revert w. induction ips as [|ip0 ips IH]; intros w.
  - exists (Ret tt), w, []. simpl. repeat split; auto; try discriminate; try tauto.
  - destruct (connect_to_target_effect ip0 dbg w)
      as (r1 & w1 & evs1 & Hrun1 & Hr1 & Hp1 & Ht1 & Hno1 & Hcl1 & Hout).
    destruct (IH w1)
      as (r2 & w2 & evs2 & Hrun2 & Hr2 & Hp2 & Ht2 & Hexn2 & Hdiv2 & Hsub2 & Hall2
          & Hcl2 & Hframe2 & Hok2 & Hfail2 & Hkeys2).
    rewrite Hp1 in *.
    assert (Hhead : r1 <> Diverge /\
                    (forall e, r1 = Raise e -> is_Exception e = false) /\
                    (target_connections w1 = target_connections w \/
                     exists c, within 5 (open_connection E (trace w) ip0 (PORT w)) = Ret c /\
                               target_connections w1 = dict_set ip0 (Some c) (target_connections w))).
    { destruct (within 5 (open_connection E (trace w) ip0 (PORT w))) as [c|e|] eqn:Ho.
      - destruct Hout as [-> ?]. repeat split; eauto; discriminate.
      - destruct Hout as [-> ?]. destruct (is_Exception e) eqn:He;
          repeat split; auto; try discriminate. congruence.
      - contradiction. }
    destruct Hhead as (Hdiv1 & Hexn1 & Hreg1).
    cbn [map gather]. rewrite Hrun1, Hrun2.
    eexists _, w2, (evs2 ++ evs1 ++ [EvOpenConnection ip0 (PORT w)]).
    split; [reflexivity|].
    split; [congruence|]. split; [congruence|].
    split. { rewrite Ht2, Ht1, <- !app_assoc. reflexivity. }
    split.
    { intros e He. destruct r1 as [[]|e1|]; destruct r2 as [[]|e2|];
        inversion He; subst; eauto. }
    split.
    { destruct r1 as [[]|e1|]; destruct r2 as [[]|e2|]; congruence. }
    split.
    { intros ip p Hin. rewrite !in_app_iff in Hin.
      destruct Hin as [Hin|[Hin|[Hin|[]]]].
      - right. eauto.
      - now apply Hno1 in Hin.
      - left. congruence. }
    split.
    { intros ip [<-|Hin]; rewrite !in_app_iff.
      - right. right. now left.
      - left. auto. }
    split.
    { intros ev Hin. rewrite !in_app_iff in Hin.
      destruct Hin as [Hin|[Hin|[<-|[]]]]; auto. }
    split.
    { intros ip.
      destruct (Hframe2 ip) as [Hsame | (Hin & c & tr & Hc & Hget)].
      - rewrite Hsame.
        destruct Hreg1 as [-> | (c & Hc & ->)]; [now left|].
        destruct (string_dec ip ip0) as [->|Hne].
        + right. split; [now left|]. exists c, (trace w).
          split; [assumption|apply dict_get_set_same].
        + left. now apply dict_get_set_other.
      - right. split; [now right|]. eauto. }
    split.
    { intros ip [<-|Hin] Hgood; [|eauto].
      destruct (Hgood (trace w)) as (c & Hc). rewrite Hc in Hout.
      destruct Hout as [_ Hreg].
      destruct (Hframe2 ip0) as [Hsame | (_ & c' & _ & _ & Hget)]; [|eauto].
      exists c. rewrite Hsame, Hreg. apply dict_get_set_same. }
    split.
    { intros Hbad. rewrite Hfail2 by (intros; apply Hbad; now right).
      destruct Hreg1 as [-> | (c & Hc & _)]; [reflexivity|].
      exfalso. eapply Hbad; [now left|eassumption]. }
    intros Hkeys.
    assert (Hk1 : dict_keys (target_connections w1) = dict_keys (target_connections w)).
    { destruct Hreg1 as [-> | (c & _ & ->)]; [reflexivity|].
      apply dict_keys_set_present. apply Hkeys. now left. }
    rewrite Hkeys2; [assumption|].
    intros ip Hin. rewrite Hk1. apply Hkeys. now right.
Qed.

Lemma connect_to_targets_gather dbg w :
  connect_to_targets E dbg w =
    gather (map (fun ip => connect_to_target E ip dbg)
                (pending (target_connections w) (dict_keys (target_connections w))))
           w.
Proof.
  unfold connect_to_targets, bind, get.
  rewrite connect_tasks_pending by auto. simpl.
  destruct (pending _ _); reflexivity.
Qed.

Lemma pending_spec d keys ip :
  In ip (pending d keys) <-> In ip keys /\ dict_get ip d = Some None.
Proof.
  unfold pending. rewrite filter_In.
  destruct (dict_get ip d) as [[c|]|]; intuition congruence.
Qed.

Lemma in_events_since w w' evs ev :
  trace w' = evs ++ trace w -> (In ev (events_since w w') <-> In ev evs).
Proof.
  intros H. erewrite events_since_prefix by eassumption. symmetry. apply in_rev.
Qed.

(** *** The forwarder with nothing to do *)

Lemma forward_tasks_none items data dbg :
  (forall ip c, ~ In (ip, Some c) items) ->
  forward_tasks E items data dbg = [].
Proof.
  induction items as [|[ip [c|]] items IH]; intros Hnone; simpl; auto.
  - exfalso. apply (Hnone ip c). now left.
  - apply IH. intros ip' c' Hin. apply (Hnone ip' c'). now right.
Qed.

Lemma forward_data_gather data dbg w :
  forward_data E data dbg w =
    gather (forward_tasks E (dict_items (target_connections w)) data dbg) w.
Proof.
  unfold forward_data, bind, get.
  destruct (forward_tasks _ _ _ _); reflexivity.
Qed.

Lemma dict_get_in_items (d : dict (option conn)) ip v :
  dict_get ip d = Some v -> In (ip, v) d.
Proof.
  induction d as [|[k v'] d IH]; simpl; [discriminate|].
  destruct (String.eqb ip k) eqn:Hk.
  - apply String.eqb_eq in Hk. intros [= ->]. subst. now left.
  - auto.
Qed.

(** *** The forwarder and a failing target *)

(** C1.  Let target [ip] be in the registry, connected through
    [(rd, wr)].  If its write fails with [ConnectionResetError] or
    [BrokenPipeError], the attempt [forward_to_target] returns normally,
    leaves [ip] at [None], and leaves the entry of every other address, the
    keys of the registry and the running flag as they were.  In the whole
    [forward_data], where the write to [ip] fails in this way whenever it
    is tried, [ip] ends at [None], no [Exception] leaves the call, and
    another target changes state only if its own write failed in the same
    way. *)
Theorem forward_reset_disconnects_exactly_that_target ip rd wr data dbg w :
  dict_get ip (target_connections w) = Some (Some (rd, wr)) ->
  (forall e,
      write_outcome E (trace w) wr data = Raise e ->
      is_reset_or_broken_pipe e = true ->
      exists w1,
        forward_to_target E ip (rd, wr) data dbg w = (Ret tt, w1) /\
        dict_get ip (target_connections w1) = Some None /\
        (forall ip', ip' <> ip ->
           dict_get ip' (target_connections w1) = dict_get ip' (target_connections w)) /\
        dict_keys (target_connections w1) = dict_keys (target_connections w) /\
        running w1 = running w) /\
  ((forall tr, exists e,
       write_outcome E tr wr data = Raise e /\ is_reset_or_broken_pipe e = true) ->
   exists r w',
     forward_data E data dbg w = (r, w') /\
     (forall e, r = Raise e -> is_Exception e = false) /\
     dict_get ip (target_connections w') = Some None /\
     (forall ip', ip' <> ip ->
        dict_get ip' (target_connections w') = dict_get ip' (target_connections w) \/
        (dict_get ip' (target_connections w') = Some None /\
         exists rd' wr' tr e,
           In (ip', Some (rd', wr')) (dict_items (target_connections w)) /\
           write_outcome E tr wr' data = Raise e /\
           is_reset_or_broken_pipe e = true))).
Proof.
  intros Hget. split.
  - intros e Ho He.
    destruct (forward_to_target_effect ip rd wr data dbg w)
      as (r & w1 & Hrun & Hr & _ & _ & Hout).
    rewrite Ho, He in Hout. destruct Hout as [-> Hreg].
    exists w1. split; [assumption|]. rewrite Hreg.
    split; [apply dict_get_set_same|].
    split; [intros; now apply dict_get_set_other|].
    split; [|assumption].
    apply dict_keys_set_present, dict_get_in_keys. congruence.
  - intros Hfail.
    destruct (gather_forward_tasks (dict_items (target_connections w)) data dbg w)
      as (r & w' & Hrun & _ & _ & _ & Hexn & Hframe & Hreset).
    exists r, w'. rewrite forward_data_gather.
    split; [assumption|]. split; [assumption|].
    split; [|intros; apply Hframe].
    apply (Hreset ip rd wr); [|assumption].
    now apply dict_get_in_items.
Qed.

(** C4.  Let target [ip] be in the registry, connected through [(rd, wr)],
    and let its write fail with an [Exception] that is neither
    [ConnectionResetError] nor [BrokenPipeError].  Then
    [forward_to_target] returns normally and the registry is the one it
    started from, so [ip] is still connected through [(rd, wr)]; the next
    connect pass does not dial [ip] and leaves its entry alone.  In the
    whole [forward_data] over a registry with distinct keys, where the
    write to [ip] fails in this way whenever it is tried, no [Exception]
    leaves the call and the entry of [ip] is unchanged. *)
Theorem forward_other_error_keeps_target ip rd wr data dbg w e :
  dict_get ip (target_connections w) = Some (Some (rd, wr)) ->
  is_Exception e = true ->
  is_reset_or_broken_pipe e = false ->
  (write_outcome E (trace w) wr data = Raise e ->
   exists w1,
     forward_to_target E ip (rd, wr) data dbg w = (Ret tt, w1) /\
     target_connections w1 = target_connections w /\
     dict_get ip (target_connections w1) = Some (Some (rd, wr)) /\
     running w1 = running w /\
     forall dbg', exists r2 w2,
       connect_to_targets E dbg' w1 = (r2, w2) /\
       (forall p, ~ In (EvOpenConnection ip p) (events_since w1 w2)) /\
       dict_get ip (target_connections w2) = Some (Some (rd, wr))) /\
  (NoDup (dict_keys (target_connections w)) ->
   (forall tr, write_outcome E tr wr data = Raise e) ->
   exists r w',
     forward_data E data dbg w = (r, w') /\
     (forall e', r = Raise e' -> is_Exception e' = false) /\
     dict_get ip (target_connections w') = Some (Some (rd, wr))).
Proof.
  intros Hget Hex Hnr. split.
  - intros Ho.
    destruct (forward_to_target_effect ip rd wr data dbg w)
      as (r & w1 & Hrun & Hr & _ & _ & Hout).
    rewrite Ho, Hnr, Hex in Hout. destruct Hout as [-> Hreg].
    exists w1. split; [assumption|]. split; [assumption|].
    split; [congruence|]. split; [assumption|].
    intros dbg'. rewrite connect_to_targets_gather.
    destruct (gather_connect_tasks
                (pending (target_connections w1) (dict_keys (target_connections w1)))
                dbg' w1)
      as (r2 & w2 & evs & Hrun2 & _ & _ & Ht2 & _ & _ & Hsub & _ & _ & Hframe & _).
    assert (Hnot : ~ In ip (pending (target_connections w1)
                                    (dict_keys (target_connections w1)))).
    { rewrite pending_spec. intros [_ Hnone]. congruence. }
    exists r2, w2. split; [assumption|]. split.
    + intros p Hin. erewrite events_since_prefix in Hin by eassumption.
      rewrite <- in_rev in Hin. eauto.
    + destruct (Hframe ip) as [Hsame | [Hin _]]; [congruence|contradiction].
  - intros Hnd Hfail.
    destruct (gather_forward_tasks (dict_items (target_connections w)) data dbg w)
      as (r & w' & Hrun & _ & _ & _ & Hexn & Hframe & _).
    exists r, w'. rewrite forward_data_gather.
    split; [assumption|]. split; [assumption|].
    destruct (Hframe ip) as [Hsame | (_ & rd' & wr' & tr & e' & Hin & Ho & He)];
      [congruence|].
    assert (Hget' : dict_get ip (target_connections w) = Some (Some (rd', wr')))
      by (apply dict_get_items; assumption).
    assert (wr' = wr) by congruence. subst wr'.
    rewrite Hfail in Ho. congruence.
Qed.

(** C5.  When no entry of the registry holds a connection,
    [forward_data] returns normally and the world after the call is the
    world before it: the same registry, flag and port, and not one event:
    no write, no log line, nothing stored. *)
Theorem forward_without_connected_target_is_noop data dbg w :
  (forall ip c, ~ In (ip, Some c) (dict_items (target_connections w))) ->
  forward_data E data dbg w = (Ret tt, w).
Proof.
  intros Hnone. rewrite forward_data_gather, forward_tasks_none by assumption.
  reflexivity.
Qed.

(** *** The connector *)

Lemma pending_nil d keys :
  (forall ip, In ip keys -> dict_get ip d <> Some None) -> pending d keys = [].
Proof.
  induction keys as [|ip keys IH]; intros Hnone; simpl; auto.
  assert (H := Hnone ip (or_introl eq_refl)).
  destruct (dict_get ip d) as [[c|]|]; try congruence;
    apply IH; intros; apply Hnone; now right.
Qed.

(** What one connect pass does to a target that is connected when the pass
    starts. *)
Lemma connect_pass_skips dbg w r1 w1 ip c :
  connect_to_targets E dbg w = (r1, w1) ->
  dict_get ip (target_connections w) = Some (Some c) ->
  dict_get ip (target_connections w1) = Some (Some c) /\
  (forall p, ~ In (EvOpenConnection ip p) (events_since w w1)).
Proof.
  rewrite connect_to_targets_gather. intros Hrun Hget.
  destruct (gather_connect_tasks
              (pending (target_connections w) (dict_keys (target_connections w)))
              dbg w)
    as (r & w' & evs & Hrun' & _ & _ & Ht & _ & _ & Hsub & _ & _ & Hframe & _).
  rewrite Hrun in Hrun'. inversion Hrun'; subst r w'. clear Hrun'.
  assert (Hnot : ~ In ip (pending (target_connections w)
                                  (dict_keys (target_connections w)))).
  { rewrite pending_spec. intros [_ Hnone]. congruence. }
  split.
  - destruct (Hframe ip) as [Hsame | [Hin _]]; [congruence|contradiction].
  - intros p Hin. erewrite events_since_prefix in Hin by eassumption.
    rewrite <- in_rev in Hin. eauto.
Qed.

(** C2.  Run the connect pass twice in a row.  A target that is connected
    when a pass starts is not dialled by that pass and keeps its entry,
    handle included, and the pass raises no [Exception] (the skip is not an
    error); when no target is pending the pass changes nothing at all.  So
    what the first pass has connected the second leaves alone, and when
    the reachability of the targets does not change between the passes the
    registry after two passes is the registry after one. *)
Theorem connect_pass_skips_connected_targets dbg w :
  exists r1 w1 r2 w2,
    connect_to_targets E dbg w = (r1, w1) /\
    connect_to_targets E dbg w1 = (r2, w2) /\
    (forall e, r1 = Raise e -> is_Exception e = false) /\
    (forall ip c,
        dict_get ip (target_connections w) = Some (Some c) ->
        dict_get ip (target_connections w1) = Some (Some c) /\
        (forall p, ~ In (EvOpenConnection ip p) (events_since w w1))) /\
    ((forall ip, dict_get ip (target_connections w) <> Some None) ->
     r1 = Ret tt /\ w1 = w) /\
    (forall ip c,
        dict_get ip (target_connections w1) = Some (Some c) ->
        dict_get ip (target_connections w2) = Some (Some c) /\
        (forall p, ~ In (EvOpenConnection ip p) (events_since w1 w2))) /\
    ((forall tr tr' ip p, reachable E tr ip p = reachable E tr' ip p) ->
     target_connections w2 = target_connections w1).
Proof.
  destruct (connect_to_targets E dbg w) as [r1 w1] eqn:Hrun1.
  destruct (connect_to_targets E dbg w1) as [r2 w2] eqn:Hrun2.
  exists r1, w1, r2, w2.
  split; [reflexivity|]. split; [assumption|].
  pose proof Hrun1 as Hg1. pose proof Hrun2 as Hg2.
  rewrite connect_to_targets_gather in Hg1, Hg2.
  destruct (gather_connect_tasks
              (pending (target_connections w) (dict_keys (target_connections w)))
              dbg w)
    as (r & w' & evs1 & Hrun' & _ & Hp1 & _ & Hexn1 & _ & _ & _ & _ & Hframe1
        & Hok1 & _ & Hkeys1).
  rewrite Hg1 in Hrun'. inversion Hrun'; subst r w'. clear Hrun'.
  destruct (gather_connect_tasks
              (pending (target_connections w1) (dict_keys (target_connections w1)))
              dbg w1)
    as (r & w' & evs2 & Hrun' & _ & _ & _ & _ & _ & _ & _ & _ & _ & _ & Hfail2 & _).
  rewrite Hg2 in Hrun'. inversion Hrun'; subst r w'. clear Hrun'.
  split; [assumption|].
  split; [intros ip c; now apply connect_pass_skips with (dbg := dbg) (r1 := r1)|].
  split.
  { intros Hnone. rewrite (pending_nil (target_connections w)) in Hg1 by auto.
    simpl in Hg1. inversion Hg1. auto. }
  split; [intros ip c; now apply connect_pass_skips with (dbg := dbg) (r1 := r2)|].
  intros Hstable. apply Hfail2. intros ip tr c Hin Hc.
  apply pending_spec in Hin. destruct Hin as [Hin Hnone].
  rewrite Hkeys1 in Hin
    by (intros ip' Hin'; apply pending_spec in Hin'; tauto).
  assert (Hpend : In ip (pending (target_connections w)
                                 (dict_keys (target_connections w)))).
  { apply pending_spec. split; [assumption|].
    destruct (Hframe1 ip) as [Hsame | (_ & c' & _ & _ & Hget)]; congruence. }
  destruct (Hok1 ip Hpend) as [c' Hget]; [|congruence].
  intros tr'. specialize (Hstable tr tr' ip (PORT w1)).
  unfold reachable in Hstable. rewrite Hc in Hstable. rewrite <- Hp1.
  destruct (within 5 (open_connection E tr' ip (PORT w1))) as [c''|e|];
    try discriminate. eauto.
Qed.

(** C3.  A connect attempt to an address the registry holds as [None]:
    when the connection is established before the deadline of 5, the pair
    is stored under the address; when the deadline passes first
    ([TimeoutError]), or the attempt fails with an [Exception], the
    registry is untouched and the address stays at [None].  In all three
    cases [connect_to_target] returns normally, and in every case the
    entries of the other addresses are as before. *)
Theorem connect_attempt_connects_or_stays_disconnected ip dbg w :
  dict_get ip (target_connections w) = Some None ->
  exists r w',
    connect_to_target E ip dbg w = (r, w') /\
    (forall ip', ip' <> ip ->
       dict_get ip' (target_connections w') = dict_get ip' (target_connections w)) /\
    (forall c t,
        open_connection E (trace w) ip (PORT w) = (Ret c, t) -> t < 5 ->
        r = Ret tt /\ dict_get ip (target_connections w') = Some (Some c)) /\
    (forall o t,
        open_connection E (trace w) ip (PORT w) = (o, t) -> 5 <= t \/ o = Diverge ->
        r = Ret tt /\ target_connections w' = target_connections w /\
        dict_get ip (target_connections w') = Some None) /\
    (forall e t,
        open_connection E (trace w) ip (PORT w) = (Raise e, t) ->
        is_Exception e = true ->
        r = Ret tt /\ target_connections w' = target_connections w /\
        dict_get ip (target_connections w') = Some None).
Proof.
  intros Hget.
  destruct (connect_to_target_effect ip dbg w)
    as (r & w' & evs & Hrun & _ & _ & _ & _ & _ & Hout).
  exists r, w'. split; [assumption|].
  destruct (open_connection E (trace w) ip (PORT w)) as [o t] eqn:Ho.
  split.
  { intros ip' Hne.
    destruct (within 5 (o, t)) as [c|e|]; [|now destruct Hout as [_ ->]|contradiction].
    destruct Hout as [_ ->]. now apply dict_get_set_other. }
  split.
  { intros c t' [= -> ->] Hlt. simpl in Hout.
    apply Nat.ltb_lt in Hlt. rewrite Hlt in Hout.
    destruct Hout as [-> ->]. split; [reflexivity|apply dict_get_set_same]. }
  split.
  { intros o' t' [= -> ->] Hlate.
    assert (Hw : within 5 (o', t') = Raise TimeoutError).
    { destruct Hlate as [Hle | ->]; [|reflexivity].
      apply Nat.ltb_ge in Hle. destruct o'; simpl; now rewrite ?Hle. }
    rewrite Hw in Hout. simpl in Hout. destruct Hout as [-> Hreg].
    rewrite Hreg. auto. }
  intros e t' [= -> ->] Hex. simpl in Hout.
  destruct (t' <? 5); simpl in Hout; rewrite ?Hex in Hout;
    destruct Hout as [-> Hreg]; rewrite Hreg; auto.
Qed.

(** *** Shutdown *)

Lemma closed_writers_app evs1 evs2 :
  closed_writers (evs1 ++ evs2) = closed_writers evs1 ++ closed_writers evs2.
Proof.
  induction evs1 as [|ev evs1 IH]; simpl; auto.
  destruct ev; simpl; auto. now rewrite IH.
Qed.

(** The loop of [shutdown_server]: [evs] are its events, oldest first. *)
Lemma close_targets_effect items w :
  (forall tr wr, close_contained (writer_close E tr wr) = true) ->
  exists w' evs,
    close_targets E items w = (Ret tt, w') /\
    running w' = running w /\
    target_connections w' = target_connections w /\
    trace w' = rev evs ++ trace w /\
    closed_writers evs = connected_writers items /\
    close_failures_logged E (trace w) evs /\
    (forall ev, In ev evs ->
       (exists wr, ev = EvClose wr) \/ ev = EvPrint Error_closing_connection).
Proof.
  intros Hc. revert w.
  induction items as [|[ip [[rd wr]|]] items IH]; intros w.
  - exists w, []. simpl. repeat split; auto. intros ev [].
  - cbn [close_targets]. run.
    specialize (Hc (trace w) wr) as Hcw. unfold close_contained in Hcw.
    destruct (writer_close E (trace w) wr) as [[]|e|] eqn:Hclose;
      try discriminate; simpl; [|rewrite Hcw; simpl].
    + match goal with |- context [close_targets E items ?w1] =>
        destruct (IH w1) as (w' & evs & Hrun & Hr & Hreg & Ht & Hcl & Hlog & Hev) end.
      simpl in *. exists w', (EvClose wr :: evs). rewrite Hrun.
      split; [reflexivity|]. split; [assumption|]. split; [assumption|].
      split. { simpl. rewrite Ht, <- app_assoc. reflexivity. }
      split. { simpl. now rewrite Hcl. }
      split. { simpl. rewrite Hclose. auto. }
      intros ev [<-|Hin]; eauto.
    + match goal with |- context [close_targets E items ?w1] =>
        destruct (IH w1) as (w' & evs & Hrun & Hr & Hreg & Ht & Hcl & Hlog & Hev) end.
      simpl in *.
      exists w', (EvClose wr :: EvPrint Error_closing_connection :: evs).
      rewrite Hrun.
      split; [reflexivity|]. split; [assumption|]. split; [assumption|].
      split. { simpl. rewrite Ht, <- !app_assoc. reflexivity. }
      split. { simpl. now rewrite Hcl. }
      split. { simpl. rewrite Hclose. auto. }
      intros ev [<-|[<-|Hin]]; eauto.
  - cbn [close_targets]. run.
    destruct (IH w) as (w' & evs & Hrun & Hrest).
    exists w', evs. rewrite Hrun. split; [reflexivity|]. exact Hrest.
Qed.

(** C7.  Provided no [close] hangs or raises past [Exception]:
    [shutdown_server] first lowers the [running] flag and prints its line,
    then calls [close] on the writer of every connected target, in the
    order of the registry, and only then stops the loop, sleeps and exits by
    [SystemExit].  Every one of those writers is closed whether or not an
    earlier [close] raised, and each [close] that raised is followed at
    once by the line [Error closing connection]. *)
Theorem shutdown_closes_every_connected_target w :
  (forall tr wr, close_contained (writer_close E tr wr) = true) ->
  exists w' closes,
    shutdown_server E w = (Raise SystemExit, w') /\
    running w' = false /\
    events_since w w' =
      [EvSetRunning false; EvPrint Shutting_down_server] ++ closes
        ++ [EvLoopStop; EvTimeSleep 3] /\
    closed_writers closes = connected_writers (dict_items (target_connections w)) /\
    close_failures_logged E
      (EvPrint Shutting_down_server :: EvSetRunning false :: trace w) closes /\
    (forall ev, In ev closes ->
       (exists wr, ev = EvClose wr) \/ ev = EvPrint Error_closing_connection).
Proof.
  intros Hc. unfold shutdown_server. run.
  match goal with |- context [close_targets E ?items ?w1] =>
    destruct (close_targets_effect items w1 Hc)
      as (w' & evs & Hrun & Hr & Hreg & Ht & Hcl & Hlog & Hev) end.
  simpl in *. rewrite Hrun.
  eexists. exists evs. split; [reflexivity|]. simpl.
  split; [assumption|].
  split.
  { erewrite events_since_prefix with
      (evs := EvTimeSleep 3 :: EvLoopStop :: rev evs
                ++ [EvPrint Shutting_down_server; EvSetRunning false])
      by (simpl; rewrite Ht, <- app_assoc; reflexivity).
    simpl. rewrite rev_app_distr, rev_involutive. simpl.
    now rewrite <- !app_assoc. }
  split; [assumption|]. split; assumption.
Qed.

(** *** A client session *)

Lemma forward_data_extends data dbg w :
  extends w (snd (forward_data E data dbg w)).
Proof.
  rewrite forward_data_gather.
  destruct (gather_forward_tasks (dict_items (target_connections w)) data dbg w)
    as (r & w' & Hrun & _ & _ & Hx & _).
  now rewrite Hrun.
Qed.

Lemma relay_chunk_extends data dbg w :
  extends w (snd (relay_chunk E data dbg w)).
Proof.
  unfold relay_chunk, decode. run.
  destruct (utf8_valid data); simpl; [|apply extends_refl].
  destruct dbg; simpl.
  - match goal with |- context [forward_data E data true ?w1] =>
      pose proof (forward_data_extends data true w1) as Hx end.
    destruct (forward_data E data true _) as [[[]|e|] w']; simpl in *;
      (eapply extends_trans; [|exact Hx]); now exists [EvPrint (Received_data_from_client data)].
  - pose proof (forward_data_extends data false w) as Hx.
    destruct (forward_data E data false w) as [[[]|e|] w']; exact Hx.
Qed.

Lemma handle_client_loop_extends fuel rd dbg w :
  extends w (snd (handle_client_loop E fuel rd dbg w)).
Proof.
  revert w. induction fuel as [|fuel IH]; intros w; simpl.
  - apply extends_refl.
  - run. destruct (running w); [|apply extends_refl].
    assert (Hread : extends w (record (EvRead rd 4096) w))
      by (now exists [EvRead rd 4096]).
    destruct (reader_read E (trace w) rd 4096) as [data|e|]; simpl; auto.
    destruct (bytes_truthy data); simpl; auto.
    pose proof (relay_chunk_extends data dbg (record (EvRead rd 4096) w)) as Hx.
    unfold record in *. simpl in *.
    destruct (relay_chunk E data dbg _) as [[[]|e|] w1]; simpl in *;
      eauto using extends_trans.
Qed.

Lemma close_client_effect wr dbg w :
  exists r w' evs,
    close_client E wr dbg w = (r, w') /\
    trace w' = evs ++ EvClose wr :: trace w.
Proof.
  unfold close_client. run.
  destruct (writer_close E (trace w) wr) as [[]|e|]; simpl.
  - destruct (writer_wait_closed E (EvClose wr :: trace w) wr) as [[]|e|]; simpl.
    + destruct dbg; simpl; do 2 eexists.
      * now exists [EvPrint Client_connection_closed; EvWaitClosed wr].
      * now exists [EvWaitClosed wr].
    + do 2 eexists. now exists [EvWaitClosed wr].
    + do 2 eexists. now exists [EvWaitClosed wr].
  - do 2 eexists. now exists [].
  - do 2 eexists. now exists [].
Qed.

(** A session whose loop ends, by whatever way, has its client closed. *)
Lemma handle_client_closes fuel rd wr dbg w :
  fst (handle_client_loop E fuel rd dbg w) <> Diverge ->
  exists r w',
    handle_client E fuel rd wr dbg w = (r, w') /\
    In (EvClose wr) (events_since w w').
Proof.
  intros Hend. unfold handle_client, try_finally, try_except.
  pose proof (handle_client_loop_extends fuel rd dbg w) as [evs1 Ht1].
  destruct (handle_client_loop E fuel rd dbg w) as [r1 w1]. simpl in *.
  assert (Hfinal : forall (r0 : result unit) w0 evs0,
             trace w0 = evs0 ++ trace w ->
             exists r w',
               match close_client E wr dbg w0 with
               | (Ret _, w'') => (r0, w'')
               | (Raise e, w'') => (Raise e, w'')
               | (Diverge, w'') => (Diverge, w'')
               end = (r, w') /\ In (EvClose wr) (events_since w w')).
  { intros r0 w0 evs0 Ht0.
    destruct (close_client_effect wr dbg w0) as (r2 & w2 & evs2 & Hrun2 & Ht2).
    rewrite Hrun2.
    assert (Hin : In (EvClose wr) (events_since w w2)).
    { erewrite events_since_prefix with (evs := evs2 ++ EvClose wr :: evs0)
        by (rewrite Ht2, Ht0, <- app_assoc; reflexivity).
      rewrite <- in_rev, in_app_iff. right. now left. }
    destruct r2 as [[]|e|]; eauto. }
  destruct r1 as [[]|e|]; [eauto| |congruence].
  cbn [dispatch]. destruct (is_Exception e).
  - unfold log_debug. destruct dbg; run.
    + apply Hfinal with (evs0 := EvPrint (Error_handling_client e) :: evs1).
      simpl. now rewrite Ht1.
    + eauto.
  - unfold raise. eauto.
Qed.

Lemma session_ends_loop rd dbg w :
  session_ends E rd dbg w ->
  exists fuel, forall fuel',
    fuel <= fuel' -> fst (handle_client_loop E fuel' rd dbg w) <> Diverge.
Proof.
  induction 1 as [w Hrun | w data Hrun Hread Hempty | w e Hrun Hread
                 | w data e w1 Hrun Hread Hdata Hrelay
                 | w data w1 Hrun Hread Hdata Hrelay Hends [fuel IH]].
  - exists 1. intros [|f] Hle; [lia|]. cbn [handle_client_loop].
    unfold bind, get. rewrite Hrun. discriminate.
  - exists 1. intros [|f] Hle; [lia|]. cbn [handle_client_loop].
    unfold bind, get, call. rewrite Hrun, Hread, Hempty. discriminate.
  - exists 1. intros [|f] Hle; [lia|]. cbn [handle_client_loop].
    unfold bind, get, call. rewrite Hrun, Hread. discriminate.
  - exists 1. intros [|f] Hle; [lia|]. cbn [handle_client_loop].
    unfold bind, get, call. rewrite Hrun, Hread, Hdata, Hrelay. discriminate.
  - exists (S fuel). intros [|f] Hle; [lia|]. cbn [handle_client_loop].
    unfold bind, get, call. rewrite Hrun, Hread, Hdata, Hrelay.
    apply IH. lia.
Qed.

(** Conversely the five ways are all there are. *)
Lemma loop_ends_session fuel rd dbg w :
  fst (handle_client_loop E fuel rd dbg w) <> Diverge ->
  session_ends E rd dbg w.
Proof.
  revert w. induction fuel as [|fuel IH]; intros w; cbn [handle_client_loop].
  - simpl. congruence.
  - unfold bind, get, call.
    destruct (running w) eqn:Hrun; [|intros _; now apply ends_flag_down].
    destruct (reader_read E (trace w) rd 4096) as [data|e|] eqn:Hread.
    + destruct (bytes_truthy data) eqn:Hdata;
        [|intros _; eapply ends_empty_read; eassumption].
      destruct (relay_chunk E data dbg (record (EvRead rd 4096) w))
        as [[[]|e|] w1] eqn:Hrelay.
      * intros Hend. eapply ends_later; eauto.
      * intros _. eapply ends_relay_error; eassumption.
      * simpl. congruence.
    + intros _. eapply ends_read_error; eassumption.
    + simpl. congruence.
Qed.

(** C8.  In every run of [handle_client] whose loop ends, whether it
    returns or raises, [close] is called on the client writer.  The loop
    ends in each of these ways, at the round where it happens: the flag is
    down, the read is empty, the read raises, the relay of the chunk raises
    (decoding it for the log line, or forwarding it); and for a session
    that ends in one of them there is an amount of fuel from which the run
    is complete and the client writer is closed. *)
Theorem client_session_always_closes_client rd wr dbg w :
  (forall fuel,
      fst (handle_client_loop E fuel rd dbg w) <> Diverge ->
      exists r w',
        handle_client E fuel rd wr dbg w = (r, w') /\
        In (EvClose wr) (events_since w w')) /\
  (session_ends E rd dbg w ->
   exists fuel, forall fuel',
     fuel <= fuel' ->
     fst (handle_client_loop E fuel' rd dbg w) <> Diverge /\
     exists r w',
       handle_client E fuel' rd wr dbg w = (r, w') /\
       In (EvClose wr) (events_since w w')).
Proof.
  split.
  - intros fuel. apply handle_client_closes.
  - intros Hends. destruct (session_ends_loop Hends) as [fuel Hfuel].
    exists fuel. intros fuel' Hle. split; [auto|].
    apply handle_client_closes. auto.
Qed.

(** *** Startup *)

Lemma connector_event_no_traffic ev :
  is_connector_event ev = true -> is_client_traffic ev = false.
Proof. destruct ev; simpl; congruence. Qed.

(** C6.  [start_server] runs the connect pass to its end before anything
    else: every address the registry holds as [None] is dialled in it.
    When the pass returns, the events that follow are the creation of the
    reconnect task and then the start of the listener, in this order, and
    the registry the listener starts with is the one the pass left; when
    the pass does not return the listener is never started.  No event of
    the whole startup reads from a client or writes to a target. *)
Theorem startup_dials_before_listening dbg w :
  exists r w' r1 w1,
    start_server E dbg w = (r, w') /\
    connect_to_targets E dbg w = (r1, w1) /\
    (forall ip,
        dict_get ip (target_connections w) = Some None ->
        In (EvOpenConnection ip (PORT w)) (events_since w w1)) /\
    (forall ev, In ev (events_since w w') -> is_client_traffic ev = false) /\
    match r1 with
    | Ret _ =>
        exists after,
          events_since w w' =
            events_since w w1
              ++ EvCreateReconnectTask
              :: EvStartServer "0.0.0.0" (PORT w) :: after /\
          target_connections w' = target_connections w1
    | _ =>
        r = r1 /\ w' = w1 /\
        forall host p, ~ In (EvStartServer host p) (events_since w w')
    end.
Proof.
  unfold start_server. unfold bind at 1.
  rewrite connect_to_targets_gather.
  destruct (gather_connect_tasks
              (pending (target_connections w) (dict_keys (target_connections w)))
              dbg w)
    as (r1 & w1 & evs1 & Hrun & _ & Hp & Ht & _ & _ & _ & Hall & Hconn & _).
  rewrite Hrun.
  assert (Hdial : forall ip,
             dict_get ip (target_connections w) = Some None ->
             In (EvOpenConnection ip (PORT w)) (events_since w w1)).
  { intros ip Hnone. erewrite events_since_prefix by eassumption.
    rewrite <- in_rev. apply Hall, pending_spec. split; [|assumption].
    apply dict_get_in_keys. congruence. }
  assert (Hpass : forall ev, In ev (events_since w w1) -> is_client_traffic ev = false).
  { intros ev Hin. erewrite events_since_prefix in Hin by eassumption.
    rewrite <- in_rev in Hin. auto using connector_event_no_traffic. }
  assert (Hstart : forall (r : result unit) w' post,
             trace w' = post ++ EvStartServer "0.0.0.0" (PORT w)
                          :: EvCreateReconnectTask :: trace w1 ->
             target_connections w' = target_connections w1 ->
             (forall ev, In ev post -> is_client_traffic ev = false) ->
             exists r0 w0 r2 w2,
               (r, w') = (r0, w0) /\ (Ret tt, w1) = (r2, w2) /\
               (forall ip,
                   dict_get ip (target_connections w) = Some None ->
                   In (EvOpenConnection ip (PORT w)) (events_since w w2)) /\
               (forall ev, In ev (events_since w w0) -> is_client_traffic ev = false) /\
               match r2 with
               | Ret _ =>
                   exists after,
                     events_since w w0 =
                       events_since w w2
                         ++ EvCreateReconnectTask
                         :: EvStartServer "0.0.0.0" (PORT w) :: after /\
                     target_connections w0 = target_connections w2
               | _ =>
                   r0 = r2 /\ w0 = w2 /\
                   forall host p, ~ In (EvStartServer host p) (events_since w w0)
               end).
  { intros r w' post Ht' Hreg Hpost.
    assert (Hev : events_since w w' =
                  events_since w w1
                    ++ EvCreateReconnectTask
                    :: EvStartServer "0.0.0.0" (PORT w) :: rev post).
    { erewrite events_since_prefix with
        (evs := post ++ EvStartServer "0.0.0.0" (PORT w)
                  :: EvCreateReconnectTask :: evs1)
        by (rewrite Ht', Ht, <- app_assoc; reflexivity).
      assert (H1 : events_since w w1 = rev evs1)
        by (apply events_since_prefix; assumption).
      rewrite H1, rev_app_distr. simpl. now rewrite <- !app_assoc. }
    exists r, w', (Ret tt), w1. repeat split; auto.
    - intros ev Hin. rewrite Hev, in_app_iff in Hin.
      destruct Hin as [Hin|[<-|[<-|Hin]]]; auto.
      rewrite <- in_rev in Hin. auto.
    - exists (rev post). auto. }
  destruct r1 as [[]|e|].
  - run. rewrite Hp.
    destruct (asyncio_start_server E (EvCreateReconnectTask :: trace w1)
                "0.0.0.0" (PORT w)) as [[]|e|]; simpl.
    + destruct dbg; simpl;
        destruct (serve_forever E _) as [[]|e|]; simpl;
        (eapply Hstart; [ | reflexivity | ]);
        first [ now instantiate (1 := [_; _; _])
              | now instantiate (1 := [_; _])
              | now instantiate (1 := [_])
              | idtac ];
        simpl; intros ev Hin; intuition (subst; reflexivity).
    + apply Hstart with (post := []); simpl; auto; intros ev [].
    + apply Hstart with (post := []); simpl; auto; intros ev [].
  - exists (Raise e), w1, (Raise e), w1. repeat split; auto.
    intros host p Hin. erewrite events_since_prefix in Hin by eassumption.
    rewrite <- in_rev in Hin. apply Hconn in Hin. discriminate.
  - exists Diverge, w1, Diverge, w1. repeat split; auto.
    intros host p Hin. erewrite events_since_prefix in Hin by eassumption.
    rewrite <- in_rev in Hin. apply Hconn in Hin. discriminate.
Qed.

(** *** The configuration *)

Lemma stripped_nonempty_filter lines :
  stripped_nonempty lines =
    map strip (filter (fun line => str_truthy (strip line)) lines).
Proof.
  induction lines as [|line lines IH]; simpl; auto.
  destruct (str_truthy (strip line)); simpl; congruence.
Qed.

Lemma stripped_nonempty_truthy lines :
  Forall (fun ip => str_truthy ip = true) (stripped_nonempty lines).
Proof.
  induction lines as [|line lines IH]; simpl; auto.
  destruct (str_truthy (strip line)) eqn:H; auto.
Qed.

Lemma stripped_nonempty_config_text addresses :
  Forall (fun a => clean_address a = true) addresses ->
  stripped_nonempty (file_lines (config_text addresses)) = addresses.
Proof.
  intros Hclean. rewrite file_lines_config_text by assumption.
  induction Hclean as [|a rest Ha _ IH]; simpl; auto.
  rewrite strip_line, clean_address_truthy, IH by assumption. reflexivity.
Qed.

(** C9.  When the config file can be read, [read_ips_from_config] returns
    the stripped text of the lines that are not blank, in the order of the
    file, a line that occurs twice giving its address twice, each address
    non-empty and otherwise unchecked; a file written one clean address per
    line gives back exactly those addresses.  [main] then builds the
    registry from that list: its keys are the configured addresses, one
    entry per address, and every entry is [None]. *)
Theorem startup_reads_addresses_and_registers_each a w content :
  file_read E (trace w) (config a) = Ret content ->
  let ips := stripped_nonempty (file_lines content) in
  read_ips_from_config E (config a) w = (Ret ips, record (EvOpenFile (config a)) w) /\
  ips = map strip (filter (fun line => str_truthy (strip line)) (file_lines content)) /\
  Forall (fun ip => str_truthy ip = true) ips /\
  (forall addresses,
      Forall (fun ad => clean_address ad = true) addresses ->
      content = config_text addresses -> ips = addresses) /\
  exists w',
    main_init E a w = (Ret tt, w') /\
    target_connections w' = dict_fromkeys ips None /\
    NoDup (dict_keys (target_connections w')) /\
    (forall ip, In ip (dict_keys (target_connections w')) <-> In ip ips) /\
    (forall ip, In ip ips -> dict_get ip (target_connections w') = Some None) /\
    (forall ip c, In (ip, c) (dict_items (target_connections w')) -> c = None) /\
    PORT w' = Some (port a) /\
    running w' = running w.
Proof.
  intros Hread ips.
  assert (Hrun : read_ips_from_config E (config a) w
                 = (Ret ips, record (EvOpenFile (config a)) w)).
  { unfold read_ips_from_config, bind, call, ret. now rewrite Hread. }
  split; [assumption|].
  split; [apply stripped_nonempty_filter|].
  split; [apply stripped_nonempty_truthy|].
  split.
  { intros addresses Hclean ->. now apply stripped_nonempty_config_text. }
  unfold main_init. unfold bind at 1. rewrite Hrun.
  destruct (dict_fromkeys_spec ips (@None conn)) as (Hnd & Hin & Hval & Hget).
  eexists. split; [reflexivity|]. simpl. repeat split; auto; apply Hin; auto.
Qed.

End TcprelayFacts.

(** *** The theorems on a concrete run *)

Section TcprelayRuns.
Import Tcprelay Scenario.

Lemma forward_reset_disconnects_exactly_that_target_witness :
  dict_get A (target_connections serving) = Some (Some (1, 2)) /\
  write_outcome outside (trace serving) 2 hello = Raise ConnectionResetError /\
  exists w1 r w',
    forward_to_target outside A (1, 2) hello false serving = (Ret tt, w1) /\
    dict_get A (target_connections w1) = Some None /\
    dict_get B (target_connections w1) = Some (Some (3, 4)) /\
    forward_data outside hello false serving = (r, w') /\
    dict_get A (target_connections w') = Some None.
Proof.
  split; [reflexivity|]. split; [reflexivity|].
  destruct (@forward_reset_disconnects_exactly_that_target
              outside A 1 2 hello false serving eq_refl) as [Hone Hall].
  destruct (Hone ConnectionResetError eq_refl eq_refl)
    as (w1 & Hrun & Hget & Hframe & _).
  destruct Hall as (r & w' & Hrun' & _ & Hget' & _).
  { intros tr. exists ConnectionResetError. split; reflexivity. }
  exists w1, r, w'. repeat split; auto.
  rewrite Hframe; [reflexivity|discriminate].
Defined.

Lemma forward_other_error_keeps_target_witness :
  dict_get B (target_connections serving) = Some (Some (3, 4)) /\
  is_Exception OSError = true /\
  is_reset_or_broken_pipe OSError = false /\
  write_outcome outside (trace serving) 4 hello = Raise OSError /\
  exists w1,
    forward_to_target outside B (3, 4) hello false serving = (Ret tt, w1) /\
    target_connections w1 = target_connections serving.
Proof.
  repeat (split; [reflexivity|]).
  destruct (@forward_other_error_keeps_target
              outside B 3 4 hello false serving OSError eq_refl eq_refl eq_refl)
    as [Hone _].
  destruct (Hone eq_refl) as (w1 & Hrun & Hreg & _).
  exists w1. split; assumption.
Defined.

Lemma forward_without_connected_target_is_noop_witness :
  (forall ip c, ~ In (ip, Some c) (dict_items (target_connections fresh))) /\
  forward_data outside hello true fresh = (Ret tt, fresh).
Proof.
  assert (Hnone : forall ip (c : conn),
             ~ In (ip, Some c) (dict_items (target_connections fresh)))
    by (intros ip c [H|[H|[]]]; discriminate).
  split; [exact Hnone|].
  exact (@forward_without_connected_target_is_noop outside hello true fresh Hnone).
Defined.

Lemma connect_pass_skips_connected_targets_witness :
  (forall tr tr' ip p, reachable outside tr ip p = reachable outside tr' ip p) /\
  exists r1 w1 r2 w2,
    connect_to_targets outside false fresh = (r1, w1) /\
    connect_to_targets outside false w1 = (r2, w2) /\
    target_connections w2 = target_connections w1.
Proof.
  assert (Hstable : forall tr tr' ip p,
             reachable outside tr ip p = reachable outside tr' ip p)
    by reflexivity.
  split; [exact Hstable|].
  destruct (@connect_pass_skips_connected_targets outside false fresh)
    as (r1 & w1 & r2 & w2 & Hrun1 & Hrun2 & _ & _ & _ & _ & Hsame).
  exists r1, w1, r2, w2. repeat split; auto.
Defined.

Lemma connect_attempt_connects_or_stays_disconnected_witness :
  dict_get A (target_connections fresh) = Some None /\
  open_connection outside (trace fresh) A (PORT fresh) = (Ret (1, 2), 1) /\
  1 < 5 /\
  exists w',
    connect_to_target outside A false fresh = (Ret tt, w') /\
    dict_get A (target_connections w') = Some (Some (1, 2)).
Proof.
  split; [reflexivity|]. split; [reflexivity|]. split; [lia|].
  destruct (@connect_attempt_connects_or_stays_disconnected
              outside A false fresh eq_refl)
    as (r & w' & Hrun & _ & Hok & _).
  destruct (Hok (1, 2) 1 eq_refl) as [-> Hget]; [lia|].
  exists w'. split; assumption.
Defined.

Lemma shutdown_closes_every_connected_target_witness :
  (forall tr wr, close_contained (writer_close outside tr wr) = true) /\
  exists w' closes,
    shutdown_server outside serving = (Raise SystemExit, w') /\
    running w' = false /\
    closed_writers closes = [2; 4].
Proof.
  assert (Hc : forall tr wr, close_contained (writer_close outside tr wr) = true)
    by (intros tr [|[|[|[|[|wr]]]]]; reflexivity).
  split; [exact Hc|].
  destruct (@shutdown_closes_every_connected_target outside serving Hc)
    as (w' & closes & Hrun & Hstop & _ & Hclosed & _).
  exists w', closes. repeat split; assumption.
Defined.

Lemma client_session_always_closes_client_witness :
  session_ends outside 5 false serving /\
  exists fuel r w',
    handle_client outside fuel 5 6 false serving = (r, w') /\
    In (EvClose 6) (events_since serving w').
Proof.
  assert (Hends : session_ends outside 5 false serving).
  { apply ends_later with
      (data := hello)
      (w1 := snd (relay_chunk outside hello false (record (EvRead 5 4096) serving)));
      try reflexivity.
    apply ends_empty_read with (data := []); reflexivity. }
  split; [exact Hends|].
  destruct (@client_session_always_closes_client outside 5 6 false serving)
    as [_ Htotal].
  destruct (Htotal Hends) as [fuel Hfuel].
  destruct (Hfuel fuel (le_n fuel)) as (_ & r & w' & Hrun & Hin).
  exists fuel, r, w'. split; assumption.
Defined.

Lemma startup_reads_addresses_and_registers_each_witness :
  file_read outside (trace initial_world) (config started)
    = Ret (config_text [A; B; A]) /\
  read_ips_from_config outside (config started) initial_world
    = (Ret [A; B; A], record (EvOpenFile (config started)) initial_world) /\
  exists w',
    main_init outside started initial_world = (Ret tt, w') /\
    target_connections w' = [(A, None); (B, None)].
Proof.
  split; [reflexivity|].
  destruct (@startup_reads_addresses_and_registers_each
              outside started initial_world (config_text [A; B; A]) eq_refl)
    as (Hread & _ & _ & _ & w' & Hrun & Hreg & _).
  split; [exact Hread|].
  exists w'. split; [exact Hrun|exact Hreg].
Defined.

(** The second pass is what repairs a target: one that was out of reach
    during the first pass and has come back is connected by the second,
    while the target the first pass connected keeps its pair. *)
Example second_pass_connects_a_target_that_came_back :
  let w1 := snd (connect_to_targets outside_recovering false fresh) in
  let w2 := snd (connect_to_targets outside_recovering false w1) in
  dict_get A (target_connections w1) = Some (Some (1, 2)) /\
  dict_get B (target_connections w1) = Some None /\
  dict_get A (target_connections w2) = Some (Some (1, 2)) /\
  dict_get B (target_connections w2) = Some (Some (3, 4)).
Proof. repeat split. Qed.

(** The scenario of two targets, one in reach: after startup [A] is
    connected and [B] is not; the listener is started last. *)
Example startup_with_one_target_in_reach :
  let w := snd (main outside started initial_world) in
  target_connections w = [(A, Some (1, 2)); (B, None)] /\
  events_since initial_world w =
    [ EvOpenFile "config.txt";
      EvSetTargetConnections [(A, None); (B, None)];
      EvSetPORT 9000;
      EvSignalSIGINT;
      EvOpenConnection A (Some 9000%Z);
      EvSetItem A (Some (1, 2));
      EvOpenConnection B (Some 9000%Z);
      EvCreateReconnectTask;
      EvStartServer "0.0.0.0" (Some 9000%Z);
      EvServeForever ].
Proof. split; reflexivity. Qed.

End TcprelayRuns.

(** ** The UDP relay *)

Section UdprelayFacts.
Import Udprelay.
Variable E : env.

Ltac run :=
  unfold try_except, try_finally, bind, ret, raise, lift, get, modify,
    call, emit, record, log_debug, decode in *;
  simpl in *.

(** A datagram of length zero ends the loop and the handler returns: no
    later datagram is received. *)
Lemma udp_empty_datagram_ends_handler fuel sock dbg w a :
  running w = true ->
  sock_recvfrom E (trace (snd (log_debug Waiting_for_data dbg w))) sock 4096
    = Ret ([], a) ->
  handle_client E (S fuel) sock dbg w =
    (Ret tt, record (EvRecvfrom sock 4096) (snd (log_debug Waiting_for_data dbg w))).
Proof.
  intros Hrun Hrecv. unfold handle_client. cbn [handle_client_loop].
  destruct dbg; run; rewrite Hrun; simpl; rewrite Hrecv; simpl;
    rewrite ?Hrun; reflexivity.
Qed.

(** A datagram that is not empty and not UTF-8 ends the handler as well:
    building the log line raises, nothing is sent. *)
Lemma udp_undecodable_datagram_ends_handler fuel sock dbg w data a :
  running w = true ->
  sock_recvfrom E (trace (snd (log_debug Waiting_for_data dbg w))) sock 4096
    = Ret (data, a) ->
  bytes_truthy data = true ->
  utf8_valid data = false ->
  handle_client E (S fuel) sock dbg w =
    (Ret tt,
     snd (log_debug (Error_handling_client UnicodeDecodeError) dbg
            (record (EvRecvfrom sock 4096)
               (snd (log_debug Waiting_for_data dbg w))))).
Proof.
  intros Hrun Hrecv Hdata Hbad. unfold handle_client. cbn [handle_client_loop].
  destruct dbg; run; rewrite Hrun; simpl; rewrite Hrecv; simpl;
    rewrite Hdata, Hbad; simpl; rewrite ?Hrun; reflexivity.
Qed.




End UdprelayFacts.

(** C10.  The UDP handler on a datagram that is not empty and not UTF-8,
    with two targets configured and debugging off: the text of the log line
    is built before anything is forwarded, [decode] raises, the handler
    catches the exception and returns.  The only event is the [recvfrom]:
    nothing is sent to either target, and no further datagram is received
    although fuel is left.  The claim has one send per target for every
    datagram that is not empty. *)
Theorem udp_handler_drops_datagram_that_is_not_text :
  bytes_truthy Scenario.not_text = true /\
  Udprelay.target_ips Scenario.udp_serving = [Scenario.A; Scenario.B] /\
  Udprelay.handle_client Scenario.udp_outside 10 7 false Scenario.udp_serving =
    (Ret tt, Udprelay.record (Udprelay.EvRecvfrom 7 4096) Scenario.udp_serving) /\
  Udprelay.sendto_targets
    (Udprelay.trace
       (snd (Udprelay.handle_client Scenario.udp_outside 10 7 false
               Scenario.udp_serving))) = [].
Proof. repeat split. Qed.

(** The same handler on a text datagram followed by a datagram of length
    zero: one send to each target, then the loop ends. *)
Example udp_handler_relays_text_then_stops :
  exists w',
    Udprelay.handle_client Scenario.udp_outside_text 10 7 false Scenario.udp_serving
      = (Ret tt, w') /\
    Udprelay.sendto_targets (rev (Udprelay.trace w')) = [Scenario.A; Scenario.B] /\
    List.length (filter Scenario.is_recvfrom (Udprelay.trace w')) = 2.
Proof. eexists. repeat split. Qed.

(** * More of the TCP relay *)

Section TcprelayCoverage.
Import Tcprelay.
Variable E : env.

Ltac run :=
  unfold try_except, try_finally, bind, ret, raise, lift, get, modify,
    wait_for, call, emit, record, log_debug, setitem, getitem,
    set_running in *;
  simpl in *.

Lemma writes_of_app evs1 evs2 :
  writes_of (evs1 ++ evs2) = writes_of evs1 ++ writes_of evs2.
Proof.
  induction evs1 as [|ev evs1 IH]; simpl; auto.
  destruct ev; simpl; auto. now rewrite IH.
Qed.

Lemma dialled_app evs1 evs2 :
  dialled (evs1 ++ evs2) = dialled evs1 ++ dialled evs2.
Proof.
  induction evs1 as [|ev evs1 IH]; simpl; auto.
  destruct ev; simpl; auto. now rewrite IH.
Qed.

Lemma dialled_none evs :
  (forall ip p, ~ In (EvOpenConnection ip p) evs) -> dialled evs = [].
Proof.
  induction evs as [|ev evs IH]; intros Hnone; simpl; auto.
  destruct ev; try (apply IH; intros ip' p' Hin; apply (Hnone ip' p'); now right).
  exfalso. eapply Hnone. now left.
Qed.

(** *** What the forwarder writes *)

(** One attempt calls [write] once, with the chunk, whatever follows. *)
Lemma forward_to_target_writes ip rd wr data dbg w :
  exists r w' evs,
    forward_to_target E ip (rd, wr) data dbg w = (r, w') /\
    trace w' = evs ++ trace w /\
    writes_of (rev evs) = [(wr, data)].
Proof.
  unfold forward_to_target. run.
  destruct (writer_write E (trace w) wr data) as [[]|e|].
  - destruct (writer_drain E (EvWrite wr data :: trace w) wr) as [[]|e|].
    + destruct dbg; simpl; do 2 eexists;
        [now eexists [_; _; _] | now eexists [_; _]].
    + destruct e, dbg; simpl; do 2 eexists;
        first [now eexists [_; _; _; _] | now eexists [_; _; _] | now eexists [_; _]].
    + do 2 eexists. now eexists [_; _].
  - destruct e, dbg; simpl; do 2 eexists;
      first [now eexists [_; _; _] | now eexists [_; _] | now eexists [_]].
  - do 2 eexists. now eexists [_].
Qed.

Lemma gather_forward_tasks_writes items data dbg w :
  exists r w' evs,
    gather (forward_tasks E items data dbg) w = (r, w') /\
    trace w' = evs ++ trace w /\
    writes_of (rev evs) = map (fun wr => (wr, data)) (connected_writers items).
Proof.
  revert w. induction items as [|[ip [[rd wr]|]] items IH]; intros w.
  - exists (Ret tt), w, []. auto.
  - destruct (forward_to_target_writes ip rd wr data dbg w)
      as (r1 & w1 & evs1 & Hrun1 & Ht1 & Hw1).
    destruct (IH w1) as (r2 & w2 & evs2 & Hrun2 & Ht2 & Hw2).
    cbn [forward_tasks gather connected_writers map]. rewrite Hrun1, Hrun2.
    eexists _, w2, (evs2 ++ evs1). split; [reflexivity|].
    split; [now rewrite Ht2, Ht1, app_assoc|].
    now rewrite rev_app_distr, writes_of_app, Hw1, Hw2.
  - apply IH.
Qed.

(** X1.  Whatever the outcome of the writes, one [forward_data] calls
    [write] with the chunk exactly once on the writer of every connected
    target, in the order of the registry, and on nothing else. *)
Theorem forward_data_writes_chunk_once_per_connected_target data dbg w :
  exists r w',
    forward_data E data dbg w = (r, w') /\
    writes_of (events_since w w') =
      map (fun wr => (wr, data))
          (connected_writers (dict_items (target_connections w))).
Proof.
  destruct (gather_forward_tasks_writes (dict_items (target_connections w)) data dbg w)
    as (r & w' & evs & Hrun & Ht & Hw).
  exists r, w'. rewrite forward_data_gather. split; [assumption|].
  erewrite events_since_prefix by eassumption. assumption.
Qed.

Lemma gather_forward_tasks_keys items data dbg w :
  (forall ip c, In (ip, c) items -> In ip (dict_keys (target_connections w))) ->
  dict_keys (target_connections (snd (gather (forward_tasks E items data dbg) w)))
  = dict_keys (target_connections w).
Proof.
  revert w. induction items as [|[ip [[rd wr]|]] items IH]; intros w Hkeys.
  - reflexivity.
  - destruct (forward_to_target_effect E ip rd wr data dbg w)
      as (r1 & w1 & Hrun1 & _ & _ & _ & Hout).
    assert (Hk1 : dict_keys (target_connections w1) = dict_keys (target_connections w)).
    { assert (Hin : In ip (dict_keys (target_connections w)))
        by (eapply Hkeys; now left).
      destruct (write_outcome E (trace w) wr data) as [[]|e|].
      - destruct Hout as [_ ->]. reflexivity.
      - destruct (is_reset_or_broken_pipe e).
        + destruct Hout as [_ ->]. now apply dict_keys_set_present.
        + destruct (is_Exception e); destruct Hout as [_ ->]; reflexivity.
      - destruct Hout as [_ ->]. reflexivity. }
    cbn [forward_tasks gather]. rewrite Hrun1.
    specialize (IH w1).
    destruct (gather (forward_tasks E items data dbg) w1) as [r2 w2]. simpl in *.
    rewrite IH, Hk1; [reflexivity|].
    intros ip' c' Hin. rewrite Hk1. eapply Hkeys. right. eassumption.
  - cbn [forward_tasks]. apply IH. intros ip' c' Hin. eapply Hkeys. right. eassumption.
Qed.

Lemma items_in_keys (d : dict (option conn)) ip c :
  In (ip, c) d -> In ip (dict_keys d).
Proof.
  intros Hin. unfold dict_keys. change ip with (fst (ip, c)). now apply in_map.
Qed.

(** X2.  [forward_data] never adds, removes or connects a target: the keys
    of the registry, the flag and the port are as before, and an entry is
    either unchanged or went from a connection to [None]. *)
Theorem forward_data_only_disconnects data dbg w :
  exists r w',
    forward_data E data dbg w = (r, w') /\
    dict_keys (target_connections w') = dict_keys (target_connections w) /\
    running w' = running w /\ PORT w' = PORT w /\
    forall ip,
      dict_get ip (target_connections w') = dict_get ip (target_connections w) \/
      (dict_get ip (target_connections w') = Some None /\
       exists c, In (ip, Some c) (dict_items (target_connections w))).
Proof.
  destruct (gather_forward_tasks E (dict_items (target_connections w)) data dbg w)
    as (r & w' & Hrun & Hr & Hp & _ & _ & Hframe & _).
  exists r, w'. rewrite forward_data_gather. split; [assumption|].
  split.
  { pose proof (gather_forward_tasks_keys (dict_items (target_connections w)) data dbg w)
      as Hk.
    rewrite Hrun in Hk. apply Hk. intros ip c. apply items_in_keys. }
  split; [assumption|]. split; [assumption|].
  intros ip. destruct (Hframe ip) as [?|(? & rd & wr & _ & _ & Hin & _)]; [now left|].
  right. eauto.
Qed.

(** *** What a connect pass dials *)

Lemma gather_connect_tasks_dialled ips dbg w :
  exists evs,
    trace (snd (gather (map (fun ip => connect_to_target E ip dbg) ips) w))
      = evs ++ trace w /\
    dialled (rev evs) = ips.
Proof.
  revert w. induction ips as [|ip ips IH]; intros w.
  - now exists [].
  - destruct (connect_to_target_effect E ip dbg w)
      as (r1 & w1 & evs1 & Hrun1 & _ & _ & Ht1 & Hno1 & _).
    destruct (IH w1) as (evs2 & Ht2 & Hd2).
    cbn [map gather]. rewrite Hrun1.
    destruct (gather (map (fun ip => connect_to_target E ip dbg) ips) w1) as [r2 w2].
    simpl in *. exists (evs2 ++ evs1 ++ [EvOpenConnection ip (PORT w)]).
    split; [rewrite Ht2, Ht1, <- !app_assoc; reflexivity|].
    rewrite !rev_app_distr, !dialled_app, Hd2. simpl.
    rewrite dialled_none; [reflexivity|].
    intros ip' p' Hin. apply in_rev in Hin. now apply Hno1 in Hin.
Qed.

(** X3.  A connect pass always comes to an end, also when a target never
    answers (the deadline of [wait_for] ends that attempt), and no
    [Exception] leaves it.  It dials exactly the addresses held as [None],
    once each, in the order of the registry; it keeps the keys, the flag and
    the port, and never takes a connection away. *)
Theorem connect_pass_completes_and_dials_pending_once dbg w :
  exists r w',
    connect_to_targets E dbg w = (r, w') /\
    r <> Diverge /\
    (forall e, r = Raise e -> is_Exception e = false) /\
    dialled (events_since w w') =
      pending (target_connections w) (dict_keys (target_connections w)) /\
    dict_keys (target_connections w') = dict_keys (target_connections w) /\
    running w' = running w /\ PORT w' = PORT w /\
    forall ip,
      dict_get ip (target_connections w') = dict_get ip (target_connections w) \/
      (dict_get ip (target_connections w) = Some None /\
       exists c, dict_get ip (target_connections w') = Some (Some c)).
Proof.
  destruct (gather_connect_tasks E
              (pending (target_connections w) (dict_keys (target_connections w)))
              dbg w)
    as (r & w' & evs & Hrun & Hr & Hp & Ht & Hexn & Hdiv & _ & _ & _ & Hframe
        & _ & _ & Hkeys).
  destruct (gather_connect_tasks_dialled
              (pending (target_connections w) (dict_keys (target_connections w)))
              dbg w) as (evs' & Ht' & Hd).
  rewrite Hrun in Ht'. simpl in Ht'.
  exists r, w'. rewrite connect_to_targets_gather.
  split; [assumption|]. split; [assumption|]. split; [assumption|].
  split; [erewrite events_since_prefix by eassumption; assumption|].
  split.
  { apply Hkeys. intros ip Hin. now apply pending_spec in Hin. }
  split; [assumption|]. split; [assumption|].
  intros ip. destruct (Hframe ip) as [?|(Hin & c & _ & _ & Hget)]; [now left|].
  right. apply pending_spec in Hin. split; [tauto|eauto].
Qed.

(** *** The reconnection loop *)

Lemma reachable_true tr ip p :
  reachable E tr ip p = true <->
  exists c, within 5 (open_connection E tr ip p) = Ret c.
Proof.
  unfold reachable.
  destruct (within 5 (open_connection E tr ip p)) as [c|e|]; split;
    try discriminate; eauto; intros [c' H]; discriminate.
Qed.

(** All there is to know about one connect pass. *)
Lemma connect_pass_effect dbg w :
  exists r w' evs,
    connect_to_targets E dbg w = (r, w') /\
    r <> Diverge /\
    (forall e, r = Raise e -> is_Exception e = false) /\
    running w' = running w /\ PORT w' = PORT w /\
    dict_keys (target_connections w') = dict_keys (target_connections w) /\
    trace w' = evs ++ trace w /\
    (forall ip p,
        In (EvOpenConnection ip p) evs ->
        dict_get ip (target_connections w) = Some None) /\
    (forall ip,
        dict_get ip (target_connections w') = dict_get ip (target_connections w) \/
        (dict_get ip (target_connections w) = Some None /\
         exists c tr,
           reachable E tr ip (PORT w) = true /\
           dict_get ip (target_connections w') = Some (Some c))) /\
    (forall ip,
        dict_get ip (target_connections w) = Some None ->
        (forall tr, reachable E tr ip (PORT w) = true) ->
        exists c, dict_get ip (target_connections w') = Some (Some c)).
Proof.
  destruct (gather_connect_tasks E
              (pending (target_connections w) (dict_keys (target_connections w)))
              dbg w)
    as (r & w' & evs & Hrun & Hr & Hp & Ht & Hexn & Hdiv & Hsub & _ & _ & Hframe
        & Hok & _ & Hkeys).
  exists r, w', evs. rewrite connect_to_targets_gather.
  split; [assumption|]. split; [assumption|]. split; [assumption|].
  split; [assumption|]. split; [assumption|].
  split. { apply Hkeys. intros ip Hin. now apply pending_spec in Hin. }
  split; [assumption|].
  split. { intros ip p Hin. apply Hsub, pending_spec in Hin. tauto. }
  split.
  { intros ip. destruct (Hframe ip) as [?|(Hin & c & tr & Hc & Hget)]; [now left|].
    right. apply pending_spec in Hin. split; [tauto|].
    exists c, tr. split; [|assumption]. apply reachable_true. eauto. }
  intros ip Hnone Hreach. apply Hok.
  - apply pending_spec. split; [|assumption]. apply dict_get_in_keys. congruence.
  - intros tr. now apply reachable_true.
Qed.

Lemma reconnect_round_effect dbg w :
  exists r w' evs,
    reconnect_round E dbg w = (r, w') /\
    r <> Diverge /\
    (forall e, r = Raise e -> is_Exception e = false) /\
    running w' = running w /\ PORT w' = PORT w /\
    dict_keys (target_connections w') = dict_keys (target_connections w) /\
    trace w' = evs ++ trace w /\
    (forall ip p,
        In (EvOpenConnection ip p) evs ->
        dict_get ip (target_connections w) = Some None) /\
    (forall ip,
        dict_get ip (target_connections w') = dict_get ip (target_connections w) \/
        (dict_get ip (target_connections w) = Some None /\
         exists c tr,
           reachable E tr ip (PORT w) = true /\
           dict_get ip (target_connections w') = Some (Some c))) /\
    (forall ip,
        dict_get ip (target_connections w) = Some None ->
        (forall tr, reachable E tr ip (PORT w) = true) ->
        exists c, dict_get ip (target_connections w') = Some (Some c)).
Proof.
  unfold reconnect_round.
  assert (Hlog : exists w0 pre,
             log_debug Connection_maintenance_task dbg w = (Ret tt, w0) /\
             target_connections w0 = target_connections w /\
             running w0 = running w /\ PORT w0 = PORT w /\
             trace w0 = pre ++ trace w /\
             forall ip p, ~ In (EvOpenConnection ip p) pre).
  { destruct dbg; simpl.
    - eexists. exists [EvPrint Connection_maintenance_task]. repeat split.
      intros ip p [H|[]]. discriminate.
    - exists w, []. repeat split. intros ip p []. }
  destruct Hlog as (w0 & pre & Hlog & Hreg0 & Hr0 & Hp0 & Ht0 & Hpre).
  destruct (connect_pass_effect dbg w0)
    as (r & w1 & evs & Hrun & Hdiv & Hexn & Hr & Hp & Hkeys & Ht & Hsub & Hframe & Hok).
  unfold bind at 1. rewrite Hlog. unfold bind at 1. rewrite Hrun.
  rewrite Hreg0, Hp0 in *.
  destruct r as [[]|e|]; [| |congruence].
  - exists (Ret tt). eexists. exists (EvAsyncioSleep 10 :: evs ++ pre).
    unfold emit, modify, record. simpl.
    split; [reflexivity|]. simpl.
    split; [discriminate|]. split; [discriminate|].
    split; [congruence|]. split; [congruence|]. split; [assumption|].
    split; [now rewrite Ht, Ht0, <- app_assoc|].
    split; [|split; assumption].
    intros ip p [Hin|Hin]; [discriminate|]. apply in_app_iff in Hin.
    destruct Hin as [Hin|Hin]; [eauto|]. now apply Hpre in Hin.
  - exists (Raise e), w1, (evs ++ pre).
    split; [reflexivity|]. split; [discriminate|]. split; [assumption|].
    split; [congruence|]. split; [congruence|]. split; [assumption|].
    split; [now rewrite Ht, Ht0, <- app_assoc|].
    split; [|split; assumption].
    intros ip p Hin. apply in_app_iff in Hin.
    destruct Hin as [Hin|Hin]; [eauto|]. now apply Hpre in Hin.
Qed.

(** The loop after any number of rounds. *)
Lemma reconnect_task_effect fuel dbg w :
  exists r w' evs,
    reconnect_task E fuel dbg w = (r, w') /\
    (forall e, r = Raise e -> is_Exception e = false) /\
    (running w = true -> forall u, r <> Ret u) /\
    (running w = false -> r = Ret tt /\ w' = w \/ fuel = 0) /\
    running w' = running w /\ PORT w' = PORT w /\
    dict_keys (target_connections w') = dict_keys (target_connections w) /\
    trace w' = evs ++ trace w /\
    (forall ip p,
        In (EvOpenConnection ip p) evs ->
        dict_get ip (target_connections w) = Some None) /\
    (forall ip,
        dict_get ip (target_connections w') = dict_get ip (target_connections w) \/
        (dict_get ip (target_connections w) = Some None /\
         exists c tr,
           reachable E tr ip (PORT w) = true /\
           dict_get ip (target_connections w') = Some (Some c))).
Proof.
  revert w. induction fuel as [|fuel IH]; intros w.
  - exists Diverge, w, []. simpl.
    split; [reflexivity|]. split; [discriminate|].
    split; [intros _ u; discriminate|]. split; [now right|].
    repeat split; auto. intros ip p [].
  - cbn [reconnect_task]. unfold bind at 1, get.
    destruct (running w) eqn:Hrun.
    + destruct (reconnect_round_effect dbg w)
        as (r1 & w1 & evs1 & Hround & Hdiv1 & Hexn1 & Hr1 & Hp1 & Hk1 & Ht1 & Hsub1
            & Hframe1 & _).
      unfold bind. rewrite Hround.
      destruct r1 as [[]|e|]; [| |congruence].
      * destruct (IH w1)
          as (r2 & w2 & evs2 & Hloop & Hexn2 & Hup2 & _ & Hr2 & Hp2 & Hk2 & Ht2 & Hsub2
              & Hframe2).
        exists r2, w2, (evs2 ++ evs1). rewrite Hloop.
        split; [reflexivity|]. split; [assumption|].
        split; [intros _; apply Hup2; congruence|].
        split; [discriminate|].
        split; [congruence|]. split; [congruence|]. split; [congruence|].
        split; [now rewrite Ht2, Ht1, app_assoc|].
        split.
        { intros ip p Hin. apply in_app_iff in Hin.
          destruct Hin as [Hin|Hin]; [|eauto].
          apply Hsub2 in Hin.
          destruct (Hframe1 ip) as [Hsame|(Hnone & c & _ & _ & Hget)]; congruence. }
        intros ip.
        destruct (Hframe2 ip) as [Hsame2|(Hnone2 & c & tr & Hreach & Hget)].
        -- rewrite Hsame2. destruct (Hframe1 ip) as [?|(? & c & tr & ? & ?)];
             [now left|right]. split; [assumption|]. eauto.
        -- right. rewrite Hp1 in Hreach.
           destruct (Hframe1 ip) as [Hsame1|(Hnone1 & _)]; split; eauto; congruence.
      * exists (Raise e), w1, evs1.
        split; [reflexivity|]. split; [assumption|].
        split; [discriminate|]. split; [discriminate|].
        repeat (split; [first [assumption|congruence]|]). assumption.
    + exists (Ret tt), w, []. simpl.
      split; [reflexivity|]. split; [discriminate|].
      split; [discriminate|]. split; [now left|].
      repeat split; auto. intros ip p [].
Qed.

(** X4.  The reconnection loop leaves only through its flag test: started
    with the flag down it returns at once and does nothing; with the flag up
    it does not return, since no round lowers the flag.  However many rounds
    it makes, no [Exception] leaves it, the keys of the registry and the port
    stay, and a target that was connected when it started is never dialled
    and keeps its pair. *)
Theorem reconnect_task_runs_until_flag_is_down fuel dbg w :
  exists r w',
    reconnect_task E (S fuel) dbg w = (r, w') /\
    (running w = false -> r = Ret tt /\ w' = w) /\
    (running w = true -> forall u, r <> Ret u) /\
    (forall e, r = Raise e -> is_Exception e = false) /\
    running w' = running w /\ PORT w' = PORT w /\
    dict_keys (target_connections w') = dict_keys (target_connections w) /\
    (forall ip c,
        dict_get ip (target_connections w) = Some (Some c) ->
        dict_get ip (target_connections w') = Some (Some c) /\
        forall p, ~ In (EvOpenConnection ip p) (events_since w w')).
Proof.
  destruct (reconnect_task_effect (S fuel) dbg w)
    as (r & w' & evs & Hrun & Hexn & Hup & Hdown & Hr & Hp & Hk & Ht & Hsub & Hframe).
  exists r, w'. split; [assumption|].
  split. { intros Hoff. destruct (Hdown Hoff) as [?|?]; [assumption|discriminate]. }
  split; [assumption|]. split; [assumption|]. split; [assumption|].
  split; [assumption|]. split; [assumption|].
  intros ip c Hget. split.
  - destruct (Hframe ip) as [?|(? & _)]; congruence.
  - intros p Hin. erewrite events_since_prefix in Hin by eassumption.
    rewrite <- in_rev in Hin. apply Hsub in Hin. congruence.
Qed.

(** X5.  A target that never answers within the deadline stays at [None]
    through any number of rounds of the reconnection loop. *)
Theorem reconnect_task_leaves_unreachable_target_disconnected fuel dbg w ip :
  dict_get ip (target_connections w) = Some None ->
  (forall tr p, reachable E tr ip p = false) ->
  dict_get ip (target_connections (snd (reconnect_task E fuel dbg w))) = Some None.
Proof.
  intros Hnone Hnever.
  destruct (reconnect_task_effect fuel dbg w)
    as (r & w' & evs & Hrun & _ & _ & _ & _ & _ & _ & _ & _ & Hframe).
  rewrite Hrun. simpl.
  destruct (Hframe ip) as [Hsame|(_ & c & tr & Hreach & _)]; [congruence|].
  rewrite Hnever in Hreach. discriminate.
Qed.

(** X6.  A target held as [None] that answers within the deadline is
    connected by the first round of the reconnection loop, and stays
    connected through the rounds that follow. *)
Theorem reconnect_task_connects_reachable_target fuel dbg w ip :
  running w = true ->
  dict_get ip (target_connections w) = Some None ->
  (forall tr p, reachable E tr ip p = true) ->
  exists c,
    dict_get ip (target_connections (snd (reconnect_task E (S fuel) dbg w)))
      = Some (Some c).
Proof.
  intros Hup Hnone Hreach. cbn [reconnect_task]. unfold bind at 1, get.
  rewrite Hup.
  destruct (reconnect_round_effect dbg w)
    as (r1 & w1 & evs1 & Hround & Hdiv1 & _ & _ & _ & _ & _ & _ & _ & Hok).
  destruct (Hok ip Hnone (fun tr => Hreach tr (PORT w))) as [c Hget].
  unfold bind. rewrite Hround.
  destruct r1 as [[]|e|]; [| |congruence]; [|simpl; eauto].
  destruct (reconnect_task_effect fuel dbg w1)
    as (r2 & w2 & evs2 & Hloop & _ & _ & _ & _ & _ & _ & _ & _ & Hframe).
  rewrite Hloop. simpl. exists c.
  destruct (Hframe ip) as [?|(? & _)]; congruence.
Qed.

(** *** What a client session writes *)

Lemma writes_of_rev evs : writes_of (rev evs) = rev (writes_of evs).
Proof.
  induction evs as [|ev evs IH]; simpl; auto.
  rewrite writes_of_app, IH. destruct ev; simpl; now rewrite ?app_nil_r.
Qed.

(** The chunks a forwarding pass writes are the chunk it was given. *)
Lemma forward_data_writes_chunk data dbg w :
  exists r w' evs,
    forward_data E data dbg w = (r, w') /\
    trace w' = evs ++ trace w /\
    forall wr' d, In (wr', d) (writes_of evs) -> d = data.
Proof.
  destruct (gather_forward_tasks_writes (dict_items (target_connections w)) data dbg w)
    as (r & w' & evs & Hrun & Ht & Hw).
  exists r, w', evs. rewrite forward_data_gather.
  split; [assumption|]. split; [assumption|].
  intros wr' d Hin. apply in_rev in Hin. rewrite <- writes_of_rev, Hw in Hin.
  apply in_map_iff in Hin. destruct Hin as (x & [= _ <-] & _). reflexivity.
Qed.

Lemma relay_chunk_writes_chunk data dbg w :
  exists r w' evs,
    relay_chunk E data dbg w = (r, w') /\
    trace w' = evs ++ trace w /\
    forall wr' d, In (wr', d) (writes_of evs) -> d = data /\ utf8_valid data = true.
Proof.
  unfold relay_chunk, decode.
  destruct (utf8_valid data) eqn:Hvalid.
  - unfold bind at 1, ret. unfold bind at 1.
    destruct dbg; simpl.
    + destruct (forward_data_writes_chunk data true
                  (record (EvPrint (Received_data_from_client data)) w))
        as (r & w' & evs & Hrun & Ht & Hw).
      unfold emit, modify. rewrite Hrun.
      exists r, w', (evs ++ [EvPrint (Received_data_from_client data)]).
      split; [reflexivity|]. split; [now rewrite Ht, <- app_assoc|].
      intros wr' d Hin. rewrite writes_of_app in Hin. simpl in Hin.
      rewrite app_nil_r in Hin. eauto.
    + destruct (forward_data_writes_chunk data false w)
        as (r & w' & evs & Hrun & Ht & Hw).
      unfold ret. rewrite Hrun. exists r, w', evs. eauto.
  - exists (Raise UnicodeDecodeError), w, [].
    split; [reflexivity|]. split; [reflexivity|]. intros ? ? [].
Qed.

Lemma handle_client_loop_writes fuel rd dbg w :
  exists evs,
    trace (snd (handle_client_loop E fuel rd dbg w)) = evs ++ trace w /\
    forall wr' d,
      In (wr', d) (writes_of evs) ->
      exists tr,
        reader_read E tr rd 4096 = Ret d /\
        bytes_truthy d = true /\ utf8_valid d = true.
Proof.
  revert w. induction fuel as [|fuel IH]; intros w.
  - exists []. split; [reflexivity|]. intros ? ? [].
  - cbn [handle_client_loop]. unfold bind at 1, get.
    destruct (running w); [|exists []; split; [reflexivity|intros ? ? []]].
    unfold bind at 1, call.
    destruct (reader_read E (trace w) rd 4096) as [data|e|] eqn:Hread;
      try (exists [EvRead rd 4096]; split; [reflexivity|intros ? ? []]).
    destruct (bytes_truthy data) eqn:Hdata;
      [|exists [EvRead rd 4096]; split; [reflexivity|intros ? ? []]].
    destruct (relay_chunk_writes_chunk data dbg (record (EvRead rd 4096) w))
      as (r1 & w1 & evs1 & Hrelay & Ht1 & Hw1).
    unfold bind. rewrite Hrelay.
    assert (Hround : forall wr' d,
               In (wr', d) (writes_of (evs1 ++ [EvRead rd 4096])) ->
               exists tr,
                 reader_read E tr rd 4096 = Ret d /\
                 bytes_truthy d = true /\ utf8_valid d = true).
    { intros wr' d Hin. rewrite writes_of_app in Hin. simpl in Hin.
      rewrite app_nil_r in Hin. destruct (Hw1 _ _ Hin) as [-> Hvalid]. eauto. }
    destruct r1 as [[]|e|].
    + destruct (IH w1) as (evs2 & Ht2 & Hw2).
      exists (evs2 ++ evs1 ++ [EvRead rd 4096]).
      split; [rewrite Ht2, Ht1, <- !app_assoc; reflexivity|].
      intros wr' d Hin. rewrite writes_of_app in Hin. apply in_app_iff in Hin.
      destruct Hin as [Hin|Hin]; eauto.
    + exists (evs1 ++ [EvRead rd 4096]). simpl.
      split; [rewrite Ht1, <- app_assoc; reflexivity|assumption].
    + exists (evs1 ++ [EvRead rd 4096]). simpl.
      split; [rewrite Ht1, <- app_assoc; reflexivity|assumption].
Qed.

Lemma close_client_writes_nothing wr dbg w :
  exists r w' evs,
    close_client E wr dbg w = (r, w') /\
    trace w' = evs ++ trace w /\
    writes_of evs = [].
Proof.
  unfold close_client. run.
  destruct (writer_close E (trace w) wr) as [[]|e|]; simpl.
  - destruct (writer_wait_closed E (EvClose wr :: trace w) wr) as [[]|e|]; simpl.
    + destruct dbg; simpl; do 2 eexists;
        [now eexists [_; _; _] | now eexists [_; _]].
    + do 2 eexists. now eexists [_; _].
    + do 2 eexists. now eexists [_; _].
  - do 2 eexists. now eexists [_].
  - do 2 eexists. now eexists [_].
Qed.

(** What [handle_client] adds to the events of its loop writes nothing. *)
Lemma handle_client_after_loop fuel rd wr dbg w :
  exists evs,
    trace (snd (handle_client E fuel rd wr dbg w))
      = evs ++ trace (snd (handle_client_loop E fuel rd dbg w)) /\
    writes_of evs = [].
Proof.
  unfold handle_client, try_finally, try_except.
  destruct (handle_client_loop E fuel rd dbg w) as [r1 w1]. simpl.
  assert (Hfinal : forall (r0 : result unit) w0 pre,
             trace w0 = pre ++ trace w1 -> writes_of pre = [] ->
             exists evs,
               trace (snd match close_client E wr dbg w0 with
                          | (Ret _, w'') => (r0, w'')
                          | (Raise e, w'') => (Raise e, w'')
                          | (Diverge, w'') => (Diverge, w'')
                          end) = evs ++ trace w1 /\
               writes_of evs = []).
  { intros r0 w0 pre Ht0 Hpre.
    destruct (close_client_writes_nothing wr dbg w0) as (r2 & w2 & evs2 & Hrun & Ht2 & Hw2).
    rewrite Hrun. exists (evs2 ++ pre).
    split; [destruct r2 as [[]|e|]; simpl; now rewrite Ht2, Ht0, app_assoc|].
    now rewrite writes_of_app, Hw2, Hpre. }
  destruct r1 as [[]|e|].
  - now apply Hfinal with (pre := []).
  - cbn [dispatch]. destruct (is_Exception e).
    + unfold log_debug. destruct dbg; run.
      * now apply Hfinal with (pre := [EvPrint (Error_handling_client e)]).
      * now apply Hfinal with (pre := []).
    + unfold raise. now apply Hfinal with (pre := []).
  - now exists [].
Qed.

(** X7.  Every chunk a client session writes to a target is a chunk one of
    its reads returned, byte for byte; it is never empty and it is valid
    UTF-8. *)
Theorem handle_client_forwards_only_what_it_read fuel rd wr dbg w wr' data :
  In (wr', data)
     (writes_of (events_since w (snd (handle_client E fuel rd wr dbg w)))) ->
  exists tr,
    reader_read E tr rd 4096 = Ret data /\
    bytes_truthy data = true /\ utf8_valid data = true.
Proof.
  destruct (handle_client_loop_writes fuel rd dbg w) as (evs1 & Ht1 & Hw1).
  destruct (handle_client_after_loop fuel rd wr dbg w) as (evs2 & Ht2 & Hw2).
  erewrite events_since_prefix with (evs := evs2 ++ evs1)
    by (rewrite Ht2, Ht1, app_assoc; reflexivity).
  rewrite writes_of_rev, <- in_rev, writes_of_app, Hw2. simpl. apply Hw1.
Qed.

(** X8.  A chunk that is not empty and not valid UTF-8 ends the session at
    once: building the log line raises [UnicodeDecodeError] whether or not
    debugging is on, the chunk is written to no target, and the client is
    closed. *)
Theorem handle_client_drops_chunk_that_is_not_text fuel rd wr dbg w data :
  running w = true ->
  reader_read E (trace w) rd 4096 = Ret data ->
  bytes_truthy data = true ->
  utf8_valid data = false ->
  handle_client_loop E (S fuel) rd dbg w
    = (Raise UnicodeDecodeError, record (EvRead rd 4096) w) /\
  exists r w',
    handle_client E (S fuel) rd wr dbg w = (r, w') /\
    writes_of (events_since w w') = [] /\
    In (EvClose wr) (events_since w w').
Proof.
  intros Hup Hread Hdata Hbad.
  assert (Hloop : handle_client_loop E (S fuel) rd dbg w
                  = (Raise UnicodeDecodeError, record (EvRead rd 4096) w)).
  { cbn [handle_client_loop]. unfold bind at 1, get. rewrite Hup.
    unfold bind at 1, call. rewrite Hread, Hdata.
    unfold bind at 1, relay_chunk, decode. rewrite Hbad. reflexivity. }
  split; [assumption|].
  destruct (handle_client_closes E (S fuel) rd wr dbg w) as (r & w' & Hrun & Hclose).
  { rewrite Hloop. discriminate. }
  exists r, w'. split; [assumption|]. split; [|assumption].
  destruct (handle_client_after_loop (S fuel) rd wr dbg w) as (evs2 & Ht2 & Hw2).
  rewrite Hrun, Hloop in Ht2. simpl in Ht2.
  erewrite events_since_prefix with (evs := evs2 ++ [EvRead rd 4096])
    by (rewrite Ht2, <- app_assoc; reflexivity).
  now rewrite writes_of_rev, writes_of_app, Hw2.
Qed.

(** *** How a client session ends *)

Lemma close_client_returns wr dbg w :
  (forall tr, writer_close E tr wr = Ret tt) ->
  (forall tr, writer_wait_closed E tr wr = Ret tt) ->
  fst (close_client E wr dbg w) = Ret tt.
Proof.
  intros Hc Hw. unfold close_client. run. rewrite Hc. simpl. rewrite Hw.
  destruct dbg; reflexivity.
Qed.

(** X9.  When closing the client succeeds, no [Exception] leaves
    [handle_client]: an error of the read, of the decoding or of the
    forwarding ends the session and goes no further. *)
Theorem handle_client_contains_exceptions fuel rd wr dbg w e :
  (forall tr, writer_close E tr wr = Ret tt) ->
  (forall tr, writer_wait_closed E tr wr = Ret tt) ->
  fst (handle_client E fuel rd wr dbg w) = Raise e ->
  is_Exception e = false.
Proof.
  intros Hc Hw. unfold handle_client, try_finally, try_except.
  destruct (handle_client_loop E fuel rd dbg w) as [[[]|e1|] w1];
    [| |discriminate].
  - pose proof (close_client_returns wr dbg w1 Hc Hw) as Hret.
    destruct (close_client E wr dbg w1) as [[[]|e2|] w2]; simpl in *; congruence.
  - cbn [dispatch]. destruct (is_Exception e1) eqn:Hex.
    + destruct (log_debug (Error_handling_client e1) dbg w1) as [r0 w0] eqn:Hlog.
      assert (r0 = Ret tt) by (destruct dbg; inversion Hlog; reflexivity).
      subst r0.
      pose proof (close_client_returns wr dbg w0 Hc Hw) as Hret.
      destruct (close_client E wr dbg w0) as [[[]|e2|] w2]; simpl in *; congruence.
    + unfold raise.
      pose proof (close_client_returns wr dbg w1 Hc Hw) as Hret.
      destruct (close_client E wr dbg w1) as [[[]|e2|] w2]; simpl in *; congruence.
Qed.

(** X10.  The [finally] block is not protected: when the session has ended
    and [close] returned, an exception of [wait_closed] leaves
    [handle_client], whatever ended the session. *)
Theorem handle_client_wait_closed_error_escapes fuel rd wr dbg w e :
  fst (handle_client_loop E fuel rd dbg w) <> Diverge ->
  (forall tr, writer_close E tr wr = Ret tt) ->
  (forall tr, writer_wait_closed E tr wr = Raise e) ->
  fst (handle_client E fuel rd wr dbg w) = Raise e.
Proof.
  intros Hend Hc Hw. unfold handle_client, try_finally, try_except.
  assert (Hclose : forall w0, fst (close_client E wr dbg w0) = Raise e).
  { intros w0. unfold close_client. run. rewrite Hc. simpl. now rewrite Hw. }
  destruct (handle_client_loop E fuel rd dbg w) as [[[]|e1|] w1];
    [| |simpl in Hend; congruence].
  - specialize (Hclose w1).
    destruct (close_client E wr dbg w1) as [[[]|e2|] w2]; simpl in *; congruence.
  - cbn [dispatch]. destruct (is_Exception e1).
    + destruct (log_debug (Error_handling_client e1) dbg w1) as [r0 w0] eqn:Hlog.
      assert (r0 = Ret tt) by (destruct dbg; inversion Hlog; reflexivity).
      subst r0. specialize (Hclose w0).
      destruct (close_client E wr dbg w0) as [[[]|e2|] w2]; simpl in *; congruence.
    + unfold raise. specialize (Hclose w1).
      destruct (close_client E wr dbg w1) as [[[]|e2|] w2]; simpl in *; congruence.
Qed.

(** *** Text chunks *)

Lemma ascii_utf8_valid data :
  forallb is_ascii_byte data = true -> utf8_valid data = true.
Proof.
  induction data as [|b data IH]; simpl; auto.
  rewrite andb_true_iff. unfold is_ascii_byte. intros [Hb Hrest].
  rewrite Hb. auto.
Qed.

(** X11.  A chunk of ASCII bytes is always relayed: the round that read it
    writes it once to the writer of every connected target, in the order of
    the registry. *)
Theorem relay_chunk_writes_ascii_to_every_connected_target data dbg w :
  forallb is_ascii_byte data = true ->
  exists r w',
    relay_chunk E data dbg w = (r, w') /\
    writes_of (events_since w w') =
      map (fun wr => (wr, data))
          (connected_writers (dict_items (target_connections w))).
Proof.
  intros Hascii. apply ascii_utf8_valid in Hascii.
  unfold relay_chunk, decode. rewrite Hascii.
  unfold bind at 1, ret. unfold bind at 1.
  destruct dbg; simpl.
  - destruct (gather_forward_tasks_writes
                (dict_items (target_connections w)) data true
                (record (EvPrint (Received_data_from_client data)) w))
      as (r & w' & evs & Hrun & Ht & Hw).
    unfold emit, modify. rewrite forward_data_gather. simpl. simpl in Hrun.
    rewrite Hrun. exists r, w'. split; [reflexivity|].
    erewrite events_since_prefix
      with (evs := evs ++ [EvPrint (Received_data_from_client data)])
      by (rewrite Ht; simpl; now rewrite <- app_assoc).
    rewrite rev_app_distr. simpl. assumption.
  - destruct (gather_forward_tasks_writes
                (dict_items (target_connections w)) data false w)
      as (r & w' & evs & Hrun & Ht & Hw).
    unfold ret. rewrite forward_data_gather, Hrun. exists r, w'.
    split; [reflexivity|]. erewrite events_since_prefix by eassumption. assumption.
Qed.

(** *** Shutdown, whatever [close] does *)

Lemma close_targets_events items w :
  exists r w' evs,
    close_targets E items w = (r, w') /\
    target_connections w' = target_connections w /\
    running w' = running w /\ PORT w' = PORT w /\
    trace w' = evs ++ trace w /\
    forall ev, In ev evs -> is_shutdown_event ev = true.
Proof.
  revert w. induction items as [|[ip [[rd wr]|]] items IH]; intros w.
  - exists (Ret tt), w, []. repeat split. intros ev [].
  - cbn [close_targets]. run.
    destruct (writer_close E (trace w) wr) as [[]|e|]; simpl.
    + match goal with |- context [close_targets E items ?w1] =>
        destruct (IH w1) as (r & w' & evs & Hrun & Hreg & Hr & Hp & Ht & Hev) end.
      rewrite Hrun. exists r, w', (evs ++ [EvClose wr]). simpl in *.
      repeat split; auto; [now rewrite Ht, <- app_assoc|].
      intros ev Hin. apply in_app_iff in Hin. destruct Hin as [?|[<-|[]]]; auto.
    + destruct (is_Exception e); simpl.
      * match goal with |- context [close_targets E items ?w1] =>
          destruct (IH w1) as (r & w' & evs & Hrun & Hreg & Hr & Hp & Ht & Hev) end.
        rewrite Hrun.
        exists r, w', (evs ++ [EvPrint Error_closing_connection; EvClose wr]).
        simpl in *. repeat split; auto; [now rewrite Ht, <- app_assoc|].
        intros ev Hin. apply in_app_iff in Hin.
        destruct Hin as [?|[<-|[<-|[]]]]; auto.
      * do 2 eexists. exists [EvClose wr]. repeat split.
        intros ev [<-|[]]. reflexivity.
    + do 2 eexists. exists [EvClose wr]. repeat split.
      intros ev [<-|[]]. reflexivity.
  - cbn [close_targets]. run. destruct (IH w) as (r & w' & evs & Hrun & Hrest).
    rewrite Hrun. exists r, w', evs. split; [destruct r as [[]|?|]; reflexivity|].
    exact Hrest.
Qed.

(** X12.  Whatever the calls of [close] do, [shutdown_server] never returns
    normally, leaves the flag down, and leaves the registry as it found it:
    a closed target keeps its pair.  Its events are the store of the flag,
    its two log lines, calls of [close], the stop of the loop and the sleep:
    it reads from no client, writes to no target, dials nothing and never
    awaits [wait_closed]. *)
Theorem shutdown_touches_nothing_but_the_flag w :
  exists r w',
    shutdown_server E w = (r, w') /\
    (forall u, r <> Ret u) /\
    running w' = false /\
    target_connections w' = target_connections w /\
    PORT w' = PORT w /\
    forall ev, In ev (events_since w w') -> is_shutdown_event ev = true.
Proof.
  unfold shutdown_server. run.
  match goal with |- context [close_targets E ?items ?w1] =>
    destruct (close_targets_events items w1)
      as (r & w' & evs & Hrun & Hreg & Hr & Hp & Ht & Hev) end.
  simpl in *. rewrite Hrun.
  destruct r as [[]|e|].
  - eexists. eexists. split; [reflexivity|]. simpl.
    split; [discriminate|]. repeat (split; [assumption|]).
    intros ev Hin.
    erewrite events_since_prefix
      with (evs := EvTimeSleep 3 :: EvLoopStop :: evs
                     ++ [EvPrint Shutting_down_server; EvSetRunning false]) in Hin
      by (simpl; rewrite Ht, <- app_assoc; reflexivity).
    rewrite <- in_rev in Hin. destruct Hin as [<-|[<-|Hin]]; auto.
    apply in_app_iff in Hin. destruct Hin as [?|[<-|[<-|[]]]]; auto.
  - exists (Raise e), w'. split; [reflexivity|].
    split; [discriminate|]. repeat (split; [assumption|]).
    intros ev Hin.
    erewrite events_since_prefix
      with (evs := evs ++ [EvPrint Shutting_down_server; EvSetRunning false]) in Hin
      by (rewrite Ht, <- app_assoc; reflexivity).
    rewrite <- in_rev in Hin.
    apply in_app_iff in Hin. destruct Hin as [?|[<-|[<-|[]]]]; auto.
  - exists Diverge, w'. split; [reflexivity|].
    split; [discriminate|]. repeat (split; [assumption|]).
    intros ev Hin.
    erewrite events_since_prefix
      with (evs := evs ++ [EvPrint Shutting_down_server; EvSetRunning false]) in Hin
      by (rewrite Ht, <- app_assoc; reflexivity).
    rewrite <- in_rev in Hin.
    apply in_app_iff in Hin. destruct Hin as [?|[<-|[<-|[]]]]; auto.
Qed.

(** *** Startup *)

Lemma start_server_after_pass dbg w r1 w1 :
  connect_to_targets E dbg w = (r1, w1) ->
  exists r w' post,
    start_server E dbg w = (r, w') /\
    trace w' = post ++ trace w1 /\
    dialled post = [] /\
    target_connections w' = target_connections w1 /\
    PORT w' = PORT w1.
Proof.
  intros Hpass. unfold start_server. unfold bind at 1. rewrite Hpass.
  destruct r1 as [[]|e|];
    [|do 2 eexists; exists []; repeat split
     |do 2 eexists; exists []; repeat split].
  run.
  destruct (asyncio_start_server E (EvCreateReconnectTask :: trace w1)
              "0.0.0.0" (PORT w1)) as [[]|e|]; simpl;
    [|do 2 eexists; eexists [_; _]; repeat split
     |do 2 eexists; eexists [_; _]; repeat split].
  destruct dbg; simpl; destruct (serve_forever E _) as [[]|e|]; simpl;
    do 2 eexists;
    first [ eexists [_; _; _; _; _]; repeat split; fail
          | eexists [_; _; _; _]; repeat split; fail
          | eexists [_; _; _]; repeat split; fail ].
Qed.

(** X13.  When the connect pass has returned and the listener cannot be
    started, [start_server] raises that error.  By then the reconnect task
    has been created; [serve_forever] is not reached. *)
Theorem start_server_raises_when_listener_fails dbg w e :
  fst (connect_to_targets E dbg w) = Ret tt ->
  (forall tr, asyncio_start_server E tr "0.0.0.0" (PORT w) = Raise e) ->
  exists w',
    start_server E dbg w = (Raise e, w') /\
    events_since w w' =
      events_since w (snd (connect_to_targets E dbg w))
        ++ [EvCreateReconnectTask; EvStartServer "0.0.0.0" (PORT w)].
Proof.
  intros Hpass Hlisten.
  destruct (connect_pass_effect dbg w)
    as (r1 & w1 & evs & Hrun & _ & _ & _ & Hp & _ & Ht & _).
  rewrite Hrun in *. simpl in Hpass. subst r1.
  unfold start_server. unfold bind at 1. rewrite Hrun. run.
  rewrite Hp, Hlisten. eexists. split; [reflexivity|]. simpl.
  assert (H1 : events_since w w1 = rev evs)
    by (apply events_since_prefix; assumption).
  rewrite H1.
  erewrite events_since_prefix
    with (evs := EvStartServer "0.0.0.0" (PORT w) :: EvCreateReconnectTask :: evs)
    by (simpl; now rewrite Ht).
  simpl. now rewrite <- app_assoc.
Qed.

(** X14.  When [serve_forever] comes to an end, by returning or by an
    exception, the listener is closed before [start_server] passes that
    outcome on: the close of the server is the last event. *)
Theorem start_server_closes_listener_when_serving_ends dbg w s :
  fst (connect_to_targets E dbg w) = Ret tt ->
  (forall tr, asyncio_start_server E tr "0.0.0.0" (PORT w) = Ret tt) ->
  (forall tr, serve_forever E tr = s) ->
  s <> Diverge ->
  exists w' before,
    start_server E dbg w = (s, w') /\
    events_since w w' = before ++ [EvServeForever; EvServerClose].
Proof.
  intros Hpass Hlisten Hserve Hend.
  destruct (connect_pass_effect dbg w)
    as (r1 & w1 & evs & Hrun & _ & _ & _ & Hp & _ & Ht & _).
  rewrite Hrun in *. simpl in Hpass. subst r1.
  assert (Hgen : forall pre w2,
             trace w2 = EvServerClose :: EvServeForever :: pre ++ trace w1 ->
             exists w' before,
               (s, w2) = (s, w') /\
               events_since w w' = before ++ [EvServeForever; EvServerClose]).
  { intros pre w2 Ht2. exists w2, (rev (pre ++ evs)). split; [reflexivity|].
    erewrite events_since_prefix
      with (evs := EvServerClose :: EvServeForever :: pre ++ evs)
      by (rewrite Ht2, Ht, app_assoc; reflexivity).
    simpl. now rewrite <- app_assoc. }
  unfold start_server. unfold bind at 1. rewrite Hrun. run.
  rewrite Hp, Hlisten. simpl.
  destruct dbg; simpl; rewrite Hserve; destruct s as [[]|e|]; try congruence; simpl.
  - apply (Hgen [EvPrint (Listening_on_port (PORT w));
                 EvStartServer "0.0.0.0" (PORT w); EvCreateReconnectTask]).
    reflexivity.
  - apply (Hgen [EvPrint (Listening_on_port (PORT w));
                 EvStartServer "0.0.0.0" (PORT w); EvCreateReconnectTask]).
    reflexivity.
  - apply (Hgen [EvStartServer "0.0.0.0" (PORT w); EvCreateReconnectTask]).
    reflexivity.
  - apply (Hgen [EvStartServer "0.0.0.0" (PORT w); EvCreateReconnectTask]).
    reflexivity.
Qed.

End TcprelayCoverage.

(** * More of the configuration reader *)

Section ConfigCoverage.
Import Tcprelay.
Local Open Scope string_scope.

Lemma lstrip_suffix s : exists pre, s = pre ++ lstrip s.
Proof.
  induction s as [|c s [pre IH]]; simpl.
  - now exists "".
  - destruct (isspace c).
    + exists (String c pre). simpl. now f_equal.
    + now exists "".
Qed.

Lemma lstrip_starts_clean s : lstrip s = "" \/ starts_clean (lstrip s) = true.
Proof.
  induction s as [|c s IH]; simpl; auto.
  destruct (isspace c) eqn:Hc; auto. right. simpl. now rewrite Hc.
Qed.

Lemma has_char_rev c s : has_char c (string_rev s) = has_char c s.
Proof.
  induction s as [|c' s IH]; auto.
  rewrite string_rev_cons, has_char_app, IH. simpl.
  now rewrite orb_false_r, orb_comm.
Qed.

Lemma has_char_lstrip c s : has_char c (lstrip s) = true -> has_char c s = true.
Proof.
  destruct (lstrip_suffix s) as [pre Hs]. intros H.
  rewrite Hs, has_char_app, H. apply orb_true_r.
Qed.

Lemma has_char_strip c s : has_char c (strip s) = true -> has_char c s = true.
Proof.
  unfold strip, rstrip. intros H.
  apply has_char_lstrip in H. rewrite has_char_rev in H.
  apply has_char_lstrip in H. now rewrite has_char_rev in H.
Qed.

Lemma strip_end_of_line body : strip (body ++ String LF "") = strip body.
Proof.
  unfold strip, rstrip. rewrite string_rev_app. reflexivity.
Qed.

Lemma string_rev_not_empty s : s <> "" -> string_rev s <> "".
Proof.
  destruct s as [|c s]; [congruence|]. intros _.
  rewrite string_rev_cons. destruct (string_rev s); discriminate.
Qed.

Lemma starts_clean_app a b : a <> "" -> starts_clean (a ++ b) = starts_clean a.
Proof. destruct a; [congruence|reflexivity]. Qed.

(** What [strip] returns is empty or has no white space at either end. *)
Lemma strip_ends s :
  strip s = "" \/
  (starts_clean (strip s) = true /\ starts_clean (string_rev (strip s)) = true).
Proof.
  unfold strip, rstrip.
  set (u := lstrip (string_rev s)).
  destruct (lstrip_starts_clean (string_rev u)) as [Hempty|Hstart]; [now left|].
  right. split; [assumption|].
  destruct (lstrip_suffix (string_rev u)) as [pre Hpre].
  assert (Hne : lstrip (string_rev u) <> "")
    by (destruct (lstrip (string_rev u)); [discriminate|congruence]).
  assert (Hu : u = string_rev (lstrip (string_rev u)) ++ string_rev pre).
  { rewrite <- string_rev_app, <- Hpre. symmetry. apply string_rev_involutive. }
  destruct (lstrip_starts_clean (string_rev s)) as [Hu0|Hclean].
  - fold u in Hu0. exfalso. rewrite Hu0 in Hne. now apply Hne.
  - fold u in Hclean.
    rewrite Hu, starts_clean_app in Hclean by now apply string_rev_not_empty.
    assumption.
Qed.

Lemma universal_newlines_cons_no_CR c s :
  Ascii.eqb c CR = false ->
  universal_newlines (String c s) = String c (universal_newlines s).
Proof. intros Hc. simpl. now rewrite Hc. Qed.

Lemma universal_newlines_has_no_CR s : has_char CR (universal_newlines s) = false.
Proof.
  assert (H : forall n s, String.length s <= n ->
                          has_char CR (universal_newlines s) = false).
  { clear s. induction n as [|n IH]; intros s Hlen.
    - destruct s; [reflexivity|simpl in Hlen; lia].
    - destruct s as [|c s]; [reflexivity|]. simpl in Hlen. simpl.
      destruct (Ascii.eqb c CR) eqn:Hc.
      + destruct s as [|c' s]; [reflexivity|]. simpl in Hlen.
        destruct (Ascii.eqb c' LF) eqn:Hc'.
        * simpl. apply IH. lia.
        * simpl. apply (IH (String c' s)). simpl. lia.
      + simpl. rewrite Hc. apply IH. lia. }
  now apply (H (String.length s)).
Qed.

Lemma lines_from_no_CR s cur :
  has_char CR s = false -> has_char CR cur = false ->
  Forall (fun line => has_char CR line = false) (lines_from s cur).
Proof.
  revert cur. induction s as [|c s IH]; intros cur Hs Hcur; simpl.
  - destruct cur; constructor; [|constructor].
    now rewrite has_char_rev.
  - simpl in Hs. apply orb_false_iff in Hs. destruct Hs as [Hc Hs].
    destruct (Ascii.eqb c LF).
    + constructor; [|now apply IH].
      rewrite has_char_rev. simpl. now rewrite Hc, Hcur.
    + apply IH; [assumption|]. simpl. now rewrite Hc, Hcur.
Qed.

Lemma lines_from_one_line s cur :
  has_char LF cur = false ->
  Forall (fun line =>
            exists body,
              has_char LF body = false /\
              (line = body \/ line = body ++ String LF ""))
         (lines_from s cur).
Proof.
  revert cur. induction s as [|c s IH]; intros cur Hcur; simpl.
  - destruct cur as [|c' cur']; constructor; [|constructor].
    exists (string_rev (String c' cur')). rewrite has_char_rev. auto.
  - destruct (Ascii.eqb c LF) eqn:Hc.
    + constructor; [|now apply IH].
      exists (string_rev cur). rewrite has_char_rev. split; [assumption|].
      right. apply Ascii.eqb_eq in Hc. subst c. now rewrite string_rev_cons.
    + apply IH. simpl. now rewrite Hc, Hcur.
Qed.

Lemma stripped_nonempty_in lines ip :
  In ip (stripped_nonempty lines) ->
  exists line, In line lines /\ ip = strip line /\ str_truthy ip = true.
Proof.
  induction lines as [|line lines IH]; simpl; [tauto|].
  destruct (str_truthy (strip line)) eqn:Htruthy.
  - intros [<-|Hin]; [eauto|]. destruct (IH Hin) as (l & ? & ? & ?). eauto.
  - intros Hin. destruct (IH Hin) as (l & ? & ? & ?). eauto.
Qed.

Lemma read_address_is_clean content ip :
  In ip (stripped_nonempty (file_lines content)) -> clean_address ip = true.
Proof.
  intros Hin. apply stripped_nonempty_in in Hin.
  destruct Hin as (line & Hline & -> & Htruthy).
  unfold file_lines in Hline.
  pose proof (lines_from_no_CR (universal_newlines content) ""
                (universal_newlines_has_no_CR content) eq_refl) as Hcr.
  pose proof (lines_from_one_line (universal_newlines content) "" eq_refl) as Hlf.
  rewrite Forall_forall in Hcr, Hlf.
  specialize (Hcr _ Hline). destruct (Hlf _ Hline) as (body & Hbody & Hshape).
  unfold clean_address. rewrite !andb_true_iff, !negb_true_iff.
  destruct (strip_ends line) as [Hempty|[Hs He]];
    [rewrite Hempty in Htruthy; discriminate|].
  repeat split; try assumption.
  - destruct (has_char LF (strip line)) eqn:H; [|reflexivity].
    assert (Hstrip : strip line = strip body)
      by (destruct Hshape as [->| ->]; [reflexivity|apply strip_end_of_line]).
    rewrite Hstrip in H. apply has_char_strip in H. congruence.
  - destruct (has_char CR (strip line)) eqn:H; [|reflexivity].
    apply has_char_strip in H. congruence.
Qed.

(** X15.  Every address [read_ips_from_config] returns is clean: not empty,
    without a line break, without white space at either end, whatever the
    file holds.  So the list is a normal form: written back one address per
    line and read again it comes back unchanged. *)
Theorem read_addresses_are_clean content :
  let ips := stripped_nonempty (file_lines content) in
  Forall (fun ip => clean_address ip = true) ips /\
  stripped_nonempty (file_lines (config_text ips)) = ips.
Proof.
  intros ips.
  assert (Hclean : Forall (fun ip => clean_address ip = true) ips)
    by (apply Forall_forall; intros ip; apply read_address_is_clean).
  split; [assumption|]. now apply stripped_nonempty_config_text.
Qed.

Lemma universal_newlines_app a s :
  has_char CR a = false ->
  universal_newlines (a ++ s) = a ++ universal_newlines s.
Proof.
  induction a as [|c a IH]; intros Ha; [reflexivity|].
  simpl in Ha. apply orb_false_iff in Ha. destruct Ha as [Hc Ha].
  change (String c a ++ s) with (String c (a ++ s)).
  rewrite universal_newlines_cons_no_CR by assumption.
  simpl. now rewrite IH.
Qed.

Lemma clean_address_no_CR a : clean_address a = true -> has_char CR a = false.
Proof.
  unfold clean_address. rewrite !andb_true_iff, !negb_true_iff. tauto.
Qed.

Lemma clean_address_first a :
  clean_address a = true ->
  exists c rest, a = String c rest /\ Ascii.eqb c LF = false.
Proof.
  unfold clean_address. rewrite !andb_true_iff. intros [[[Hs _] _] _].
  destruct a as [|c rest]; [discriminate|]. exists c, rest. split; [reflexivity|].
  simpl in Hs. destruct (Ascii.eqb c LF) eqn:Hc; [|reflexivity].
  apply Ascii.eqb_eq in Hc. subst c. discriminate.
Qed.

Lemma universal_newlines_config_text_eol eol addresses :
  Forall (fun a => clean_address a = true) addresses ->
  eol = String LF "" \/ eol = String CR (String LF "") \/ eol = String CR "" ->
  universal_newlines (config_text_eol eol addresses) = config_text addresses.
Proof.
  intros Hclean Heol.
  induction Hclean as [|a rest Ha Hrest IH]; [reflexivity|].
  cbn [config_text_eol config_text].
  rewrite universal_newlines_app by now apply clean_address_no_CR.
  f_equal. destruct Heol as [-> |[-> | ->]].
  - simpl. now rewrite IH.
  - simpl. now rewrite IH.
  - change (String CR "" ++ config_text_eol (String CR "") rest)
      with (String CR (config_text_eol (String CR "") rest)).
    rewrite <- IH. destruct Hrest as [|a2 rest2 Ha2 _]; [reflexivity|].
    destruct (clean_address_first _ Ha2) as (c & r & -> & Hc).
    cbn [config_text_eol append]. simpl. now rewrite Hc.
Qed.

(** X16.  The end of line does not matter: a file of clean addresses
    written with [\n], with [\r\n] or with [\r] alone after each address
    gives back exactly those addresses, in order, repeats included. *)
Theorem read_addresses_with_any_end_of_line eol addresses :
  Forall (fun a => clean_address a = true) addresses ->
  eol = String LF "" \/ eol = String CR (String LF "") \/ eol = String CR "" ->
  stripped_nonempty (file_lines (config_text_eol eol addresses)) = addresses.
Proof.
  intros Hclean Heol.
  rewrite <- (stripped_nonempty_config_text Hclean) at 2.
  unfold file_lines.
  rewrite universal_newlines_config_text_eol by assumption.
  rewrite universal_newlines_id by now apply config_text_no_CR.
  reflexivity.
Qed.

End ConfigCoverage.

(** * More of startup *)

Section StartupCoverage.
Import Tcprelay.
Variable E : env.

Lemma first_occurrences_from_ext seen seen' ks :
  (forall k, In k seen <-> In k seen') ->
  first_occurrences_from seen ks = first_occurrences_from seen' ks.
Proof.
  revert seen seen'. induction ks as [|k ks IH]; intros seen seen' Hsame; simpl; auto.
  assert (Hex : existsb (String.eqb k) seen = existsb (String.eqb k) seen').
  { destruct (existsb (String.eqb k) seen) eqn:H1;
      destruct (existsb (String.eqb k) seen') eqn:H2; auto.
    - apply existsb_exists in H1. destruct H1 as (x & Hin & Hx).
      apply Hsame in Hin.
      assert (existsb (String.eqb k) seen' = true)
        by (apply existsb_exists; eauto). congruence.
    - apply existsb_exists in H2. destruct H2 as (x & Hin & Hx).
      apply Hsame in Hin.
      assert (existsb (String.eqb k) seen = true)
        by (apply existsb_exists; eauto). congruence. }
  rewrite Hex. destruct (existsb (String.eqb k) seen'); [now apply IH|].
  f_equal. apply IH. intros k'. simpl. now rewrite Hsame.
Qed.

Lemma fold_dict_set_keys (V : Type) (v : V) ks (d : dict V) :
  dict_keys (fold_left (fun d k => dict_set k v d) ks d)
  = dict_keys d ++ first_occurrences_from (dict_keys d) ks.
Proof.
  revert d. induction ks as [|k ks IH]; intros d; simpl.
  - now rewrite app_nil_r.
  - rewrite IH. destruct (existsb (String.eqb k) (dict_keys d)) eqn:Hex.
    + apply existsb_exists in Hex. destruct Hex as (x & Hin & Hx).
      apply String.eqb_eq in Hx. subst x.
      now rewrite dict_keys_set_present.
    + assert (Hnot : ~ In k (dict_keys d)).
      { intros Hin.
        assert (existsb (String.eqb k) (dict_keys d) = true)
          by (apply existsb_exists; exists k; split; [assumption|apply String.eqb_refl]).
        congruence. }
      rewrite dict_keys_set_absent by assumption.
      rewrite <- app_assoc. simpl. do 2 f_equal.
      apply first_occurrences_from_ext. intros k'.
      rewrite in_app_iff. simpl. intuition.
Qed.

Lemma dict_fromkeys_keys (V : Type) (v : V) ks :
  dict_keys (dict_fromkeys ks v) = first_occurrences ks.
Proof. unfold dict_fromkeys. now rewrite fold_dict_set_keys. Qed.

Lemma pending_all (d : dict (option conn)) keys :
  (forall ip, In ip keys -> dict_get ip d = Some None) -> pending d keys = keys.
Proof.
  induction keys as [|ip keys IH]; intros Hall; simpl; auto.
  rewrite (Hall ip) by now left. f_equal. apply IH. intros; apply Hall; now right.
Qed.

Lemma dialled_rev evs : dialled (rev evs) = rev (dialled evs).
Proof.
  induction evs as [|ev evs IH]; simpl; auto.
  rewrite dialled_app, IH. destruct ev; simpl; now rewrite ?app_nil_r.
Qed.

(** The world [main] hands to [start_server]. *)
Lemma main_init_effect a w content :
  file_read E (trace w) (config a) = Ret content ->
  main_init E a w =
    (Ret tt,
     {| target_connections :=
          dict_fromkeys (stripped_nonempty (file_lines content)) None;
        running := running w;
        PORT := Some (port a);
        trace :=
          [ EvSignalSIGINT; EvSetPORT (port a);
            EvSetTargetConnections
              (dict_fromkeys (stripped_nonempty (file_lines content)) None);
            EvOpenFile (config a) ] ++ trace w |}).
Proof.
  intros Hread. unfold main_init, read_ips_from_config, bind, call, ret.
  rewrite Hread. reflexivity.
Qed.

(** X17.  With a readable config file, startup leaves the registry with the
    configured addresses as keys, in the order of the file, a repeated
    address keeping its first place.  Each of them has been dialled exactly
    once, in that order, and is either connected or [None]: connected when
    it answers within the deadline, [None] when it does not. *)
Theorem main_dials_every_configured_address_once a w content :
  file_read E (trace w) (config a) = Ret content ->
  let ips := stripped_nonempty (file_lines content) in
  exists r w',
    main E a w = (r, w') /\
    PORT w' = Some (port a) /\
    dict_keys (target_connections w') = first_occurrences ips /\
    dialled (events_since w w') = first_occurrences ips /\
    (forall ip,
        In ip ips ->
        dict_get ip (target_connections w') = Some None \/
        exists c, dict_get ip (target_connections w') = Some (Some c)) /\
    (forall ip,
        In ip ips ->
        (forall tr, reachable E tr ip (Some (port a)) = true) ->
        exists c, dict_get ip (target_connections w') = Some (Some c)) /\
    (forall ip,
        In ip ips ->
        (forall tr, reachable E tr ip (Some (port a)) = false) ->
        dict_get ip (target_connections w') = Some None).
Proof.
  intros Hread ips.
  pose proof (main_init_effect a w Hread) as Hinit. fold ips in Hinit.
  set (w0 := {| target_connections := dict_fromkeys ips None;
                running := running w;
                PORT := Some (port a);
                trace := [ EvSignalSIGINT; EvSetPORT (port a);
                           EvSetTargetConnections (dict_fromkeys ips None);
                           EvOpenFile (config a) ] ++ trace w |}) in *.
  destruct (dict_fromkeys_spec ips (@None conn)) as (_ & Hkeys & _ & Hnone).
  destruct (connect_pass_effect E (debug a) w0)
    as (r1 & w1 & evs & Hpass & _ & _ & _ & Hp1 & Hk1 & Ht1 & _ & Hframe & Hok).
  destruct (gather_connect_tasks_dialled E
              (pending (target_connections w0) (dict_keys (target_connections w0)))
              (debug a) w0) as (evs' & Ht' & Hd).
  rewrite <- connect_to_targets_gather, Hpass in Ht'. simpl in Ht'.
  assert (evs' = evs) by (rewrite Ht1 in Ht'; now apply app_inv_tail in Ht').
  subst evs'.
  rewrite pending_all in Hd
    by (intros ip Hin; apply Hnone; now apply Hkeys).
  destruct (start_server_after_pass E (debug a) w0 Hpass)
    as (r & w' & post & Hstart & Ht2 & Hpost & Hreg & Hp2).
  exists r, w'. unfold main, bind. rewrite Hinit, Hstart.
  split; [reflexivity|].
  split; [now rewrite Hp2, Hp1|].
  split; [rewrite Hreg, Hk1; apply dict_fromkeys_keys|].
  split.
  { erewrite events_since_prefix
      with (evs := post ++ evs
                     ++ [ EvSignalSIGINT; EvSetPORT (port a);
                          EvSetTargetConnections (dict_fromkeys ips None);
                          EvOpenFile (config a) ])
      by (rewrite Ht2, Ht1; simpl; now rewrite <- !app_assoc).
    rewrite !rev_app_distr, !dialled_app, Hd, (dialled_rev post), Hpost. simpl.
    rewrite app_nil_r. apply dict_fromkeys_keys. }
  rewrite Hreg.
  split.
  { intros ip Hin. destruct (Hframe ip) as [Hsame|(_ & c & _ & _ & Hget)]; [|eauto].
    left. rewrite Hsame. now apply Hnone. }
  split.
  { intros ip Hin Hreach. apply Hok; [now apply Hnone|assumption]. }
  intros ip Hin Hnever.
  destruct (Hframe ip) as [Hsame|(_ & c & tr & Hreach & _)].
  - rewrite Hsame. now apply Hnone.
  - simpl in Hreach. rewrite Hnever in Hreach. discriminate.
Qed.

(** X18.  When the config file cannot be read, [main] raises the error of
    the read and has done nothing else: the registry and the port are not
    set, no handler is installed, nothing is dialled and the listener is not
    started. *)
Theorem main_stops_when_config_is_unreadable a w e :
  file_read E (trace w) (config a) = Raise e ->
  main E a w = (Raise e, record (EvOpenFile (config a)) w).
Proof.
  intros Hread. unfold main, main_init, read_ips_from_config, bind, call.
  now rewrite Hread.
Qed.

End StartupCoverage.

(** * More of the UDP relay *)

Section UdprelayCoverage.
Import Udprelay.
Variable E : env.

Ltac run :=
  unfold try_except, try_finally, bind, ret, raise, lift, get, modify,
    call, emit, record, log_debug, decode, set_udp_socket in *;
  simpl in *.

(** One forwarding task, whatever the socket layer does. *)
Lemma udp_forward_data_effect data ip dbg w :
  exists r w' evs,
    forward_data E data ip dbg w = (r, w') /\
    (forall e, r = Raise e -> is_Exception e = false) /\
    target_ips w' = target_ips w /\ running w' = running w /\
    PORT w' = PORT w /\ udp_socket w' = udp_socket w /\
    trace w' = evs ++ trace w /\
    match socket_socket E (trace w) with
    | Ret s =>
        sendto_targets (rev evs) = [ip] /\
        In (EvSendto s data ip (PORT w)) evs /\
        (socket_sendto E (EvSocket :: trace w) s data ip (PORT w) <> Diverge ->
         In (EvSocketClose s) evs)
    | _ =>
        sendto_targets (rev evs) = [] /\
        forall s, ~ In (EvSocketClose s) evs
    end.
Proof.
  unfold forward_data. run.
  destruct (socket_socket E (trace w)) as [s|e|] eqn:Hsock.
  - destruct (socket_sendto E (EvSocket :: trace w) s data ip (PORT w)) as [n|e|].
    + destruct dbg; simpl.
      * destruct (socket_close E _ s) as [[]|e|]; simpl;
          [| destruct (is_Exception e) eqn:Hex; simpl |];
          do 2 eexists;
          first [ eexists [_; _; _; _; _]; repeat split; simpl; auto; congruence
                | eexists [_; _; _; _]; repeat split; simpl; auto; congruence ].
      * destruct (socket_close E _ s) as [[]|e|]; simpl;
          [| destruct (is_Exception e) eqn:Hex; simpl |];
          do 2 eexists;
          eexists [_; _; _]; repeat split; simpl; auto; congruence.
    + destruct (socket_close E _ s) as [[]|e'|]; simpl.
      * destruct (is_Exception e) eqn:Hex; simpl; [destruct dbg; simpl|];
          do 2 eexists;
          first [ eexists [_; _; _; _]; repeat split; simpl; auto; congruence
                | eexists [_; _; _]; repeat split; simpl; auto; congruence ].
      * destruct (is_Exception e') eqn:Hex; simpl; [destruct dbg; simpl|];
          do 2 eexists;
          first [ eexists [_; _; _; _]; repeat split; simpl; auto; congruence
                | eexists [_; _; _]; repeat split; simpl; auto; congruence ].
      * do 2 eexists. eexists [_; _; _]. repeat split; simpl; auto; congruence.
    + do 2 eexists. eexists [_; _]. repeat split; simpl; auto; congruence.
  - destruct (is_Exception e) eqn:Hex; simpl; [destruct dbg; simpl|];
      do 2 eexists;
      first [ eexists [_; _]; repeat split; simpl; auto; try congruence;
              intros s [H|[H|[]]]; discriminate
            | eexists [_]; repeat split; simpl; auto; try congruence;
              intros s [H|[]]; discriminate ].
  - do 2 eexists. eexists [_]. repeat split; simpl; auto; try congruence.
    intros s [H|[]]; discriminate.
Qed.

(** X19.  A forwarding task of the UDP relay keeps its failures to itself:
    no [Exception] leaves it and it changes no global.  When it got a socket
    it sends the datagram once, to its own address, and closes the socket
    again, whether or not the send raised; without a socket nothing is sent
    and nothing is closed. *)
Theorem udp_forward_data_contains_errors_and_closes_its_socket data ip dbg w :
  exists r w' evs,
    forward_data E data ip dbg w = (r, w') /\
    trace w' = evs ++ trace w /\
    (forall e, r = Raise e -> is_Exception e = false) /\
    target_ips w' = target_ips w /\ running w' = running w /\
    PORT w' = PORT w /\ udp_socket w' = udp_socket w /\
    (forall s,
        socket_socket E (trace w) = Ret s ->
        sendto_targets (rev evs) = [ip] /\
        (socket_sendto E (EvSocket :: trace w) s data ip (PORT w) <> Diverge ->
         In (EvSocketClose s) evs)) /\
    ((forall s, socket_socket E (trace w) <> Ret s) ->
     sendto_targets (rev evs) = [] /\ forall s, ~ In (EvSocketClose s) evs).
Proof.
  destruct (udp_forward_data_effect data ip dbg w)
    as (r & w' & evs & Hrun & Hexn & Hips & Hr & Hp & Hs & Ht & Hsock).
  exists r, w', evs. repeat (split; [assumption|]). split.
  - intros s Hs'. rewrite Hs' in Hsock. tauto.
  - intros Hnone. destruct (socket_socket E (trace w)) as [s|e|]; [|assumption..].
    now destruct (Hnone s).
Qed.


(** X21.  A datagram of length zero ends the UDP handler whatever fuel is
    left: it returns, having sent nothing, and receives no later
    datagram. *)
Theorem udp_handler_stops_at_empty_datagram fuel sock dbg w a :
  running w = true ->
  sock_recvfrom E (trace (snd (log_debug Waiting_for_data dbg w))) sock 4096
    = Ret ([], a) ->
  exists w',
    handle_client E (S fuel) sock dbg w = (Ret tt, w') /\
    trace w' =
      EvRecvfrom sock 4096 :: trace (snd (log_debug Waiting_for_data dbg w)) /\
    sendto_targets (trace w') = sendto_targets (trace w).
Proof.
  intros Hup Hrecv.
  rewrite (udp_empty_datagram_ends_handler E fuel sock dbg w Hup Hrecv).
  eexists. split; [reflexivity|]. split; [reflexivity|].
  destruct dbg; reflexivity.
Qed.

(** X22.  An error of the receive ends the UDP handler too: it is caught,
    the handler returns normally, nothing is sent and no further datagram is
    received. *)
Theorem udp_handler_stops_at_receive_error fuel sock dbg w e :
  running w = true ->
  sock_recvfrom E (trace (snd (log_debug Waiting_for_data dbg w))) sock 4096
    = Raise e ->
  is_Exception e = true ->
  exists w',
    handle_client E (S fuel) sock dbg w = (Ret tt, w') /\
    trace w' =
      trace (snd (log_debug (Error_handling_client e) dbg
                    (record (EvRecvfrom sock 4096)
                       (snd (log_debug Waiting_for_data dbg w))))) /\
    sendto_targets (trace w') = sendto_targets (trace w).
Proof.
  intros Hup Hrecv Hex. unfold handle_client. cbn [handle_client_loop].
  destruct dbg; run; rewrite Hup; simpl; rewrite Hrecv; simpl; rewrite Hex; simpl;
    eexists; repeat split.
Qed.

(** X23.  One datagram that is not empty and not valid UTF-8 stops the whole
    UDP server: the handler ends without sending, [start_server] closes the
    listening socket and returns. *)
Theorem udp_server_stops_after_datagram_that_is_not_text
    fuel dbg w sock data a :
  running w = true ->
  (forall tr, socket_socket E tr = Ret sock) ->
  (forall tr, socket_bind E tr sock "0.0.0.0" (PORT w) = Ret tt) ->
  (forall tr, sock_recvfrom E tr sock 4096 = Ret (data, a)) ->
  bytes_truthy data = true ->
  utf8_valid data = false ->
  (forall tr, socket_close E tr sock = Ret tt) ->
  exists w' evs,
    start_server E (S fuel) dbg w = (Ret tt, w') /\
    trace w' = evs ++ trace w /\
    In (EvSocketClose sock) evs /\
    sendto_targets evs = [] /\
    udp_socket w' = Some sock.
Proof.
  intros Hup Hsock Hbind Hrecv Hdata Hbad Hclose.
  unfold start_server. run. rewrite Hsock. simpl. rewrite Hbind. simpl.
  destruct dbg; simpl;
    match goal with
    | |- context [handle_client E (S fuel) sock ?d ?w0] =>
        rewrite (udp_undecodable_datagram_ends_handler E fuel sock d w0 Hup
                   (Hrecv _) Hdata Hbad)
    end; simpl; rewrite Hclose; simpl.
  - eexists. eexists [_; _; _; _; _; _; _; _; _; _].
    repeat split; simpl; auto 20.
  - eexists. eexists [_; _; _; _; _; _].
    repeat split; simpl; auto 20.
Qed.

(** X24.  When the listening socket cannot be bound, [start_server] raises
    the error of [bind]: the handler never runs and the socket, already
    stored in the global [udp_socket], is not closed. *)
Theorem udp_server_leaves_socket_open_when_bind_fails fuel dbg w sock e :
  socket_socket E (trace w) = Ret sock ->
  (forall tr, socket_bind E tr sock "0.0.0.0" (PORT w) = Raise e) ->
  exists w',
    start_server E fuel dbg w = (Raise e, w') /\
    udp_socket w' = Some sock /\
    trace w' =
      [EvBind sock "0.0.0.0" (PORT w); EvSetUdpSocket sock; EvSocket] ++ trace w.
Proof.
  intros Hsock Hbind. unfold start_server. run. rewrite Hsock. simpl.
  rewrite Hbind. eexists. repeat split.
Qed.

End UdprelayCoverage.

(** * The further theorems on concrete runs *)

Section CoverageRuns.
Import Scenario.

Lemma reconnect_task_runs_until_flag_is_down_witness :
  Tcprelay.running Scenario.serving = true /\
  dict_get A (Tcprelay.target_connections serving) = Some (Some (1, 2)) /\
  exists r w',
    Tcprelay.reconnect_task outside 3 false serving = (r, w') /\
    r <> Ret tt /\
    dict_get A (Tcprelay.target_connections w') = Some (Some (1, 2)).
Proof.
  split; [reflexivity|]. split; [reflexivity|].
  destruct (@reconnect_task_runs_until_flag_is_down outside 2 false serving)
    as (r & w' & Hrun & _ & Hup & _ & _ & _ & _ & Hkeep).
  exists r, w'. split; [exact Hrun|]. split; [exact (Hup eq_refl tt)|].
  exact (proj1 (Hkeep A (1, 2) eq_refl)).
Defined.

Lemma reconnect_task_leaves_unreachable_target_disconnected_witness :
  dict_get B (Tcprelay.target_connections fresh) = Some None /\
  (forall tr p, Tcprelay.reachable outside tr B p = false) /\
  dict_get B (Tcprelay.target_connections
                (snd (Tcprelay.reconnect_task outside 4 true fresh))) = Some None.
Proof.
  assert (Hnever : forall tr p, Tcprelay.reachable outside tr B p = false)
    by reflexivity.
  split; [reflexivity|]. split; [exact Hnever|].
  exact (@reconnect_task_leaves_unreachable_target_disconnected
           outside 4 true fresh B eq_refl Hnever).
Defined.

Lemma reconnect_task_connects_reachable_target_witness :
  Tcprelay.running fresh = true /\
  dict_get A (Tcprelay.target_connections fresh) = Some None /\
  (forall tr p, Tcprelay.reachable outside tr A p = true) /\
  exists c,
    dict_get A (Tcprelay.target_connections
                  (snd (Tcprelay.reconnect_task outside 3 false fresh)))
      = Some (Some c).
Proof.
  assert (Halways : forall tr p, Tcprelay.reachable outside tr A p = true)
    by reflexivity.
  split; [reflexivity|]. split; [reflexivity|]. split; [exact Halways|].
  exact (@reconnect_task_connects_reachable_target
           outside 2 false fresh A eq_refl eq_refl Halways).
Defined.

Lemma handle_client_forwards_only_what_it_read_witness :
  In (2, hello)
     (Tcprelay.writes_of
        (Tcprelay.events_since serving
           (snd (Tcprelay.handle_client outside 5 5 6 false serving)))) /\
  exists tr,
    Tcprelay.reader_read outside tr 5 4096 = Ret hello /\
    bytes_truthy hello = true /\ utf8_valid hello = true.
Proof.
  assert (Hin : In (2, hello)
                   (Tcprelay.writes_of
                      (Tcprelay.events_since serving
                         (snd (Tcprelay.handle_client outside 5 5 6 false serving)))))
    by (simpl; left; reflexivity).
  split; [exact Hin|].
  exact (@handle_client_forwards_only_what_it_read
           outside 5 5 6 false serving 2 hello Hin).
Defined.

Lemma handle_client_drops_chunk_that_is_not_text_witness :
  Tcprelay.running serving = true /\
  Tcprelay.reader_read outside_binary (Tcprelay.trace serving) 5 4096 = Ret not_text /\
  bytes_truthy not_text = true /\
  utf8_valid not_text = false /\
  exists r w',
    Tcprelay.handle_client outside_binary 9 5 6 false serving = (r, w') /\
    Tcprelay.writes_of (Tcprelay.events_since serving w') = [].
Proof.
  repeat (split; [reflexivity|]).
  destruct (@handle_client_drops_chunk_that_is_not_text
              outside_binary 8 5 6 false serving not_text
              eq_refl eq_refl eq_refl eq_refl)
    as (_ & r & w' & Hrun & Hnone & _).
  exists r, w'. split; assumption.
Defined.

Lemma handle_client_contains_exceptions_witness :
  (forall tr, Tcprelay.writer_close outside_cancelled tr 6 = Ret tt) /\
  (forall tr, Tcprelay.writer_wait_closed outside_cancelled tr 6 = Ret tt) /\
  fst (Tcprelay.handle_client outside_cancelled 5 5 6 false serving)
    = Raise CancelledError /\
  is_Exception CancelledError = false.
Proof.
  assert (Hc : forall tr, Tcprelay.writer_close outside_cancelled tr 6 = Ret tt)
    by reflexivity.
  assert (Hw : forall tr, Tcprelay.writer_wait_closed outside_cancelled tr 6 = Ret tt)
    by reflexivity.
  split; [exact Hc|]. split; [exact Hw|]. split; [reflexivity|].
  exact (@handle_client_contains_exceptions
           outside_cancelled 5 5 6 false serving CancelledError Hc Hw eq_refl).
Defined.

Lemma handle_client_wait_closed_error_escapes_witness :
  fst (Tcprelay.handle_client_loop outside_reset_at_close 5 5 false serving)
    <> Diverge /\
  (forall tr, Tcprelay.writer_close outside_reset_at_close tr 6 = Ret tt) /\
  (forall tr, Tcprelay.writer_wait_closed outside_reset_at_close tr 6
              = Raise ConnectionResetError) /\
  fst (Tcprelay.handle_client outside_reset_at_close 5 5 6 false serving)
    = Raise ConnectionResetError.
Proof.
  assert (Hend : fst (Tcprelay.handle_client_loop outside_reset_at_close 5 5 false
                        serving) <> Diverge)
    by (simpl; discriminate).
  assert (Hc : forall tr, Tcprelay.writer_close outside_reset_at_close tr 6 = Ret tt)
    by reflexivity.
  assert (Hw : forall tr, Tcprelay.writer_wait_closed outside_reset_at_close tr 6
                          = Raise ConnectionResetError)
    by reflexivity.
  split; [exact Hend|]. split; [exact Hc|]. split; [exact Hw|].
  exact (@handle_client_wait_closed_error_escapes
           outside_reset_at_close 5 5 6 false serving ConnectionResetError
           Hend Hc Hw).
Defined.

Lemma relay_chunk_writes_ascii_to_every_connected_target_witness :
  forallb is_ascii_byte hello = true /\
  exists r w',
    Tcprelay.relay_chunk outside hello false serving = (r, w') /\
    Tcprelay.writes_of (Tcprelay.events_since serving w')
      = [(2, hello); (4, hello)].
Proof.
  split; [reflexivity|].
  exact (@relay_chunk_writes_ascii_to_every_connected_target
           outside hello false serving eq_refl).
Defined.

Lemma shutdown_touches_nothing_but_the_flag_witness :
  exists r w',
    Tcprelay.shutdown_server outside serving = (r, w') /\
    Tcprelay.target_connections w' = Tcprelay.target_connections serving /\
    Tcprelay.is_shutdown_event (Tcprelay.EvClose 2) = true.
Proof.
  destruct (@shutdown_touches_nothing_but_the_flag outside serving)
    as (r & w' & Hrun & _ & _ & Hreg & _ & Hev).
  exists r, w'. split; [exact Hrun|]. split; [exact Hreg|].
  apply Hev.
  replace w' with (snd (Tcprelay.shutdown_server outside serving))
    by (now rewrite Hrun).
  simpl. right. right. left. reflexivity.
Defined.

Lemma start_server_raises_when_listener_fails_witness :
  fst (Tcprelay.connect_to_targets outside_port_taken false fresh) = Ret tt /\
  (forall tr, Tcprelay.asyncio_start_server outside_port_taken tr "0.0.0.0"
                (Tcprelay.PORT fresh) = Raise OSError) /\
  exists w', Tcprelay.start_server outside_port_taken false fresh = (Raise OSError, w').
Proof.
  assert (Hl : forall tr, Tcprelay.asyncio_start_server outside_port_taken tr
                            "0.0.0.0" (Tcprelay.PORT fresh) = Raise OSError)
    by reflexivity.
  split; [reflexivity|]. split; [exact Hl|].
  destruct (@start_server_raises_when_listener_fails
              outside_port_taken false fresh OSError eq_refl Hl) as (w' & Hrun & _).
  exists w'. exact Hrun.
Defined.

Lemma start_server_closes_listener_when_serving_ends_witness :
  fst (Tcprelay.connect_to_targets outside_cancelled false fresh) = Ret tt /\
  (forall tr, Tcprelay.asyncio_start_server outside_cancelled tr "0.0.0.0"
                (Tcprelay.PORT fresh) = Ret tt) /\
  (forall tr, Tcprelay.serve_forever outside_cancelled tr = Raise CancelledError) /\
  Raise CancelledError <> @Diverge unit /\
  exists w' before,
    Tcprelay.start_server outside_cancelled false fresh = (Raise CancelledError, w') /\
    Tcprelay.events_since fresh w'
      = before ++ [Tcprelay.EvServeForever; Tcprelay.EvServerClose].
Proof.
  assert (Hl : forall tr, Tcprelay.asyncio_start_server outside_cancelled tr
                            "0.0.0.0" (Tcprelay.PORT fresh) = Ret tt)
    by reflexivity.
  assert (Hs : forall tr, Tcprelay.serve_forever outside_cancelled tr
                          = Raise CancelledError)
    by reflexivity.
  assert (Hd : Raise CancelledError <> @Diverge unit) by discriminate.
  split; [reflexivity|]. split; [exact Hl|]. split; [exact Hs|]. split; [exact Hd|].
  exact (@start_server_closes_listener_when_serving_ends
           outside_cancelled false fresh (Raise CancelledError) eq_refl Hl Hs Hd).
Defined.

Lemma read_addresses_with_any_end_of_line_witness :
  Forall (fun a => clean_address a = true) [A; B; A] /\
  Tcprelay.stripped_nonempty
    (file_lines (config_text_eol (String CR (String LF EmptyString)) [A; B; A]))
  = [A; B; A].
Proof.
  assert (Hclean : Forall (fun a => clean_address a = true) [A; B; A])
    by (repeat constructor).
  split; [exact Hclean|].
  exact (@read_addresses_with_any_end_of_line
           (String CR (String LF EmptyString)) [A; B; A] Hclean
           (or_intror (or_introl eq_refl))).
Defined.

Lemma main_dials_every_configured_address_once_witness :
  Tcprelay.file_read outside (Tcprelay.trace Tcprelay.initial_world)
    (Tcprelay.config started) = Ret (config_text [A; B; A]) /\
  exists r w',
    Tcprelay.main outside started Tcprelay.initial_world = (r, w') /\
    Tcprelay.dialled (Tcprelay.events_since Tcprelay.initial_world w') = [A; B].
Proof.
  split; [reflexivity|].
  destruct (@main_dials_every_configured_address_once
              outside started Tcprelay.initial_world (config_text [A; B; A]) eq_refl)
    as (r & w' & Hrun & _ & _ & Hdial & _).
  exists r, w'. split; [exact Hrun|exact Hdial].
Defined.

Lemma main_stops_when_config_is_unreadable_witness :
  Tcprelay.file_read outside_no_config (Tcprelay.trace Tcprelay.initial_world)
    (Tcprelay.config started) = Raise FileNotFoundError /\
  Tcprelay.main outside_no_config started Tcprelay.initial_world
  = (Raise FileNotFoundError,
     Tcprelay.record (Tcprelay.EvOpenFile (Tcprelay.config started))
       Tcprelay.initial_world).
Proof.
  split; [reflexivity|].
  exact (@main_stops_when_config_is_unreadable
           outside_no_config started Tcprelay.initial_world FileNotFoundError eq_refl).
Defined.

Lemma udp_forward_data_contains_errors_and_closes_its_socket_witness :
  Udprelay.socket_socket udp_outside (Udprelay.trace udp_serving) = Ret 1 /\
  exists r w' evs,
    Udprelay.forward_data udp_outside hello A false udp_serving = (r, w') /\
    Udprelay.trace w' = evs ++ Udprelay.trace udp_serving /\
    Udprelay.sendto_targets (rev evs) = [A] /\
    In (Udprelay.EvSocketClose 1) evs.
Proof.
  split; [reflexivity|].
  destruct (@udp_forward_data_contains_errors_and_closes_its_socket
              udp_outside hello A false udp_serving)
    as (r & w' & evs & Hrun & Ht & _ & _ & _ & _ & _ & Hsock & _).
  destruct (Hsock 1 eq_refl) as [Hsent Hclosed].
  exists r, w', evs. split; [exact Hrun|]. split; [exact Ht|].
  split; [exact Hsent|]. apply Hclosed. discriminate.
Defined.


Lemma udp_handler_stops_at_empty_datagram_witness :
  Udprelay.running udp_serving = true /\
  Udprelay.sock_recvfrom (udp_outside_but (Ret ([], sender)) (Ret tt))
    (Udprelay.trace udp_serving) 7 4096 = Ret ([], sender) /\
  exists w',
    Udprelay.handle_client (udp_outside_but (Ret ([], sender)) (Ret tt))
      9 7 false udp_serving = (Ret tt, w') /\
    Udprelay.trace w' = [Udprelay.EvRecvfrom 7 4096].
Proof.
  split; [reflexivity|]. split; [reflexivity|].
  destruct (@udp_handler_stops_at_empty_datagram
              (udp_outside_but (Ret ([], sender)) (Ret tt)) 8 7 false udp_serving
              sender eq_refl eq_refl)
    as (w' & Hrun & Ht & _).
  exists w'. split; [exact Hrun|exact Ht].
Defined.

Lemma udp_handler_stops_at_receive_error_witness :
  Udprelay.running udp_serving = true /\
  Udprelay.sock_recvfrom (udp_outside_but (Raise OSError) (Ret tt))
    (Udprelay.trace udp_serving) 7 4096 = Raise OSError /\
  is_Exception OSError = true /\
  exists w',
    Udprelay.handle_client (udp_outside_but (Raise OSError) (Ret tt))
      9 7 false udp_serving = (Ret tt, w') /\
    Udprelay.trace w' = [Udprelay.EvRecvfrom 7 4096].
Proof.
  repeat (split; [reflexivity|]).
  destruct (@udp_handler_stops_at_receive_error
              (udp_outside_but (Raise OSError) (Ret tt)) 8 7 false udp_serving
              OSError eq_refl eq_refl eq_refl)
    as (w' & Hrun & Ht & _).
  exists w'. split; [exact Hrun|exact Ht].
Defined.

Lemma udp_server_stops_after_datagram_that_is_not_text_witness :
  Udprelay.running udp_serving = true /\
  bytes_truthy not_text = true /\
  utf8_valid not_text = false /\
  exists w' evs,
    Udprelay.start_server (udp_outside_but (Ret (not_text, sender)) (Ret tt))
      9 false udp_serving = (Ret tt, w') /\
    Udprelay.trace w' = evs ++ Udprelay.trace udp_serving /\
    In (Udprelay.EvSocketClose 7) evs /\
    Udprelay.sendto_targets evs = [].
Proof.
  repeat (split; [reflexivity|]).
  destruct (@udp_server_stops_after_datagram_that_is_not_text
              (udp_outside_but (Ret (not_text, sender)) (Ret tt))
              8 false udp_serving 7 not_text sender
              eq_refl (fun _ => eq_refl) (fun _ => eq_refl) (fun _ => eq_refl)
              eq_refl eq_refl (fun _ => eq_refl))
    as (w' & evs & Hrun & Ht & Hclose & Hsent & _).
  exists w', evs. repeat split; assumption.
Defined.

Lemma udp_server_leaves_socket_open_when_bind_fails_witness :
  Udprelay.socket_socket (udp_outside_but (Ret ([], sender)) (Raise OSError))
    (Udprelay.trace udp_serving) = Ret 7 /\
  exists w',
    Udprelay.start_server (udp_outside_but (Ret ([], sender)) (Raise OSError))
      9 false udp_serving = (Raise OSError, w') /\
    Udprelay.udp_socket w' = Some 7.
Proof.
  split; [reflexivity|].
  destruct (@udp_server_leaves_socket_open_when_bind_fails
              (udp_outside_but (Ret ([], sender)) (Raise OSError))
              9 false udp_serving 7 OSError eq_refl (fun _ => eq_refl))
    as (w' & Hrun & Hsock & _).
  exists w'. split; [exact Hrun|exact Hsock].
Defined.

End CoverageRuns.
